(** * Verification of the traceroute probing engine

    A shallow embedding of the Go package [traceroute] (parallel per-TTL
    probing with reconciliation, the sequential fallback, the destination
    resolver and the two line parsers), followed by the properties the
    specification states about it.  Around the package, what the
    application computes with the hops is embedded as well (the summary
    [SaveTrace] stores, the host suggestions, the hops and rows the table
    of the frontend is given), with further properties of the whole.

    Go strings are byte sequences and are modelled by [string] (a list of
    8-bit [ascii] values); Go [int] values are modelled by [Z]; a [float64]
    is a primitive binary64 float.  What the package obtains from the
    operating system, the network and the Go runtime is gathered in the
    record [World]. *)

From Stdlib Require Import ZArith Ascii String List Bool Lia.
From Stdlib Require Import DecimalString.
From Stdlib Require Import Floats.PrimFloat Uint63.
From stdpp Require Import base gmap strings.

Import ListNotations.
Local Open Scope string_scope.
Local Open Scope Z_scope.

(** ** Bytes and the Go string functions the package calls *)

Module GoStrings.

Definition byte (n : nat) : ascii := ascii_of_nat n.

Definition isDigit (c : ascii) : bool :=
  (48 <=? nat_of_ascii c)%nat && (nat_of_ascii c <=? 57)%nat.

Fixpoint HasPrefix (s p : string) : bool :=
  match p, s with
  | EmptyString, _ => true
  | String a p', String b s' => Ascii.eqb a b && HasPrefix s' p'
  | String _ _, EmptyString => false
  end.

Definition revString (s : string) : string :=
  string_of_list_ascii (List.rev (list_ascii_of_string s)).

Definition HasSuffix (s p : string) : bool :=
  HasPrefix (revString s) (revString p).

Fixpoint sliceFrom (n : nat) (s : string) : string :=
  match n, s with
  | O, _ => s
  | S n', String _ s' => sliceFrom n' s'
  | S _, EmptyString => EmptyString
  end.

Fixpoint sliceTo (n : nat) (s : string) : string :=
  match n, s with
  | O, _ => EmptyString
  | S n', String c s' => String c (sliceTo n' s')
  | S _, EmptyString => EmptyString
  end.

(** [strings.Index]: byte offset of the first occurrence, -1 if none. *)
Fixpoint indexFrom (off : nat) (s sub : string) : Z :=
  if HasPrefix s sub then Z.of_nat off
  else match s with
       | EmptyString => -1
       | String _ s' => indexFrom (S off) s' sub
       end.

Definition Index (s sub : string) : Z := indexFrom 0 s sub.

Definition Contains (s sub : string) : bool := 0 <=? Index s sub.

(** [strings.Split] for a one-byte separator (the package only splits
    on the newline). *)
Fixpoint splitOn (sep : ascii) (s : string) (cur : string) : list string :=
  match s with
  | EmptyString => [revString cur]
  | String c s' =>
      if Ascii.eqb c sep then revString cur :: splitOn sep s' EmptyString
      else splitOn sep s' (String c cur)
  end.

Definition Split (s : string) (sep : ascii) : list string :=
  splitOn sep s EmptyString.

Definition bytes (l : list nat) : string :=
  string_of_list_ascii (List.map byte l).

(** The UTF-8 encodings of the code points for which [unicode.IsSpace]
    holds: the six ASCII ones, U+0085, U+00A0, U+1680, U+2000..U+200A,
    U+2028, U+2029, U+202F, U+205F and U+3000.  A string starts (ends)
    with such a rune exactly when it starts (ends) with its encoding. *)
Definition unicodeSpaces : list string :=
  List.map bytes
    ([ [9]; [10]; [11]; [12]; [13]; [32];
       [194; 133]; [194; 160]; [225; 154; 128] ]
     ++ List.map (fun k => [226; 128; 128 + k]) (List.seq 0 11)
     ++ [ [226; 128; 168]; [226; 128; 169]; [226; 128; 175];
          [226; 129; 159]; [227; 128; 128] ])%nat%list.

(** Length of the white-space rune the string starts with, 0 if none. *)
Definition spacePrefix (tbl : list string) (s : string) : nat :=
  match List.find (HasPrefix s) tbl with
  | Some w => String.length w
  | None => 0%nat
  end.

Fixpoint trimLeftFuel (fuel : nat) (tbl : list string) (s : string)
  : string :=
  match fuel with
  | O => s
  | S f =>
      match spacePrefix tbl s with
      | O => s
      | n => trimLeftFuel f tbl (sliceFrom n s)
      end
  end.

Definition trimLeftSpace (s : string) : string :=
  trimLeftFuel (String.length s) unicodeSpaces s.

Definition trimRightSpace (s : string) : string :=
  revString
    (trimLeftFuel (String.length s) (List.map revString unicodeSpaces)
                  (revString s)).

(** [strings.TrimSpace]: leading and trailing Unicode white space
    removed. *)
Definition TrimSpace (s : string) : string :=
  trimRightSpace (trimLeftSpace s).

Fixpoint trimLeftByte (c : ascii) (s : string) : string :=
  match s with
  | String a s' => if Ascii.eqb a c then trimLeftByte c s' else s
  | EmptyString => s
  end.

(** [strings.Trim] for a cutset of one ASCII byte. *)
Definition Trim (s : string) (c : ascii) : string :=
  revString (trimLeftByte c (revString (trimLeftByte c s))).

Definition TrimSuffix (s suffix : string) : string :=
  if HasSuffix s suffix
  then sliceTo (String.length s - String.length suffix) s
  else s.

(** *** strconv *)

Definition maxInt : Z := 2 ^ 63 - 1.
Definition minInt : Z := - 2 ^ 63.

Fixpoint digitsValue (acc : Z) (s : string) : option Z :=
  match s with
  | EmptyString => Some acc
  | String c s' =>
      if isDigit c
      then digitsValue (10 * acc + Z.of_nat (nat_of_ascii c - 48)) s'
      else None
  end.

Definition unsignedValue (s : string) : option Z :=
  match s with
  | EmptyString => None
  | _ => digitsValue 0 s
  end.

(** [strconv.Atoi] with its error dropped, as every call site does
    ([ttl, _ := strconv.Atoi(..)]): the value on success, 0 on a syntax
    error, and the nearest bound of [int] on a range error. *)
Definition Atoi (s : string) : Z :=
  match s with
  | String "-" s' =>
      match unsignedValue s' with
      | Some v => Z.max minInt (- v)
      | None => 0
      end
  | String "+" s' =>
      match unsignedValue s' with
      | Some v => Z.min maxInt v
      | None => 0
      end
  | _ =>
      match unsignedValue s with
      | Some v => Z.min maxInt v
      | None => 0
      end
  end.

(** [strconv.Itoa]. *)
Definition Itoa (n : Z) : string := NilZero.string_of_int (Z.to_int n).

End GoStrings.

Import GoStrings.

(** ** Regular expressions

    The fragment of Go's [regexp] syntax the package uses, with the
    leftmost-first (backtracking) semantics of [regexp]: a repetition is
    greedy, and the first match a backtracking search finds is the one
    reported.  Every repetition in the package's patterns is over a
    single-byte class, except one bounded repetition, which is expanded the
    way [regexp/syntax] does ([x{1,3}] is [x(x(x)?)?]).  The classes [\s],
    [\d] and the literals are ASCII and [\S] accepts every other byte, so
    matching bytes agrees with matching runes. *)

Module Regexp.

Inductive regex : Type :=
| BeginText                      (* ^ *)
| Class (p : ascii -> bool)      (* one byte of a class *)
| Star (p : ascii -> bool)       (* c*, greedy *)
| Quest (r : regex)              (* r?, greedy *)
| Cat (r1 r2 : regex)
| Group (i : nat) (r : regex)    (* capturing group number i *)
| Empty.

Definition Lit (c : ascii) : regex := Class (Ascii.eqb c).
Definition Plus (p : ascii -> bool) : regex := Cat (Class p) (Star p).
Definition Seq (rs : list regex) : regex := fold_right Cat Empty rs.
Definition Repeat_1_3 (r : regex) : regex :=
  Cat r (Quest (Cat r (Quest r))).

(** [\s] is [[\t\n\f\r ]] in Go (no vertical tab), [\d] is [[0-9]]. *)
Definition space (c : ascii) : bool :=
  let n := nat_of_ascii c in
  (n =? 9)%nat || (n =? 10)%nat || (n =? 12)%nat || (n =? 13)%nat
  || (n =? 32)%nat.
Definition nonspace (c : ascii) : bool := negb (space c).
Definition digit (c : ascii) : bool := isDigit c.
Definition digitOrDot (c : ascii) : bool := isDigit c || Ascii.eqb c ".".

(** Captured groups, most recent first. *)
Definition captures : Type := list (nat * string).

Fixpoint group (cs : captures) (i : nat) : string :=
  match cs with
  | [] => EmptyString
  | (j, s) :: cs' => if Nat.eqb i j then s else group cs' i
  end.

Section Matcher.
Context {R : Type}.

(** A continuation receives the offset reached, the rest of the
    input and the groups captured so far. *)
Definition cont : Type := nat -> string -> captures -> option R.

Fixpoint star (p : ascii -> bool) (pos : nat) (s : string)
         (cs : captures) (k : cont) : option R :=
  match s with
  | String c s' =>
      if p c
      then match star p (S pos) s' cs k with
           | Some x => Some x
           | None => k pos s cs
           end
      else k pos s cs
  | EmptyString => k pos s cs
  end.

Fixpoint run (r : regex) (pos : nat) (s : string) (cs : captures)
         (k : cont) : option R :=
  match r with
  | BeginText => if Nat.eqb pos 0 then k pos s cs else None
  | Class p =>
      match s with
      | String c s' => if p c then k (S pos) s' cs else None
      | EmptyString => None
      end
  | Star p => star p pos s cs k
  | Quest r1 =>
      match run r1 pos s cs k with
      | Some x => Some x
      | None => k pos s cs
      end
  | Cat r1 r2 =>
      run r1 pos s cs (fun pos' s' cs' => run r2 pos' s' cs' k)
  | Group i r1 =>
      run r1 pos s cs
          (fun pos' s' cs' => k pos' s' ((i, sliceTo (pos' - pos) s) :: cs'))
  | Empty => k pos s cs
  end.
End Matcher.

(** A match starting at offset [off], where [s] is the input from
    that offset on: the end offset and the groups. *)
Definition matchAt (r : regex) (off : nat) (s : string)
  : option (nat * captures) :=
  run r off s [] (fun e _ cs => Some (e, cs)).

(** Leftmost match: the first start offset at which the pattern
    matches. *)
Fixpoint search (r : regex) (off : nat) (s : string)
  : option (nat * nat * captures) :=
  match matchAt r off s with
  | Some (e, cs) => Some (off, e, cs)
  | None =>
      match s with
      | String _ s' => search r (S off) s'
      | EmptyString => None
      end
  end.

(** A compiled pattern: the expression and its number of groups. *)
Record Regexp : Type := MustCompile { expr : regex; numGroups : nat }.

Definition submatches (re : Regexp) (s : string) (b e : nat)
           (cs : captures) : list string :=
  sliceTo (e - b) (sliceFrom b s)
  :: List.map (group cs) (List.seq 1 (numGroups re)).

(** [FindStringSubmatch]: [None] is Go's nil slice. *)
Definition FindStringSubmatch (re : Regexp) (s : string)
  : option (list string) :=
  match search (expr re) 0 s with
  | Some (b, e, cs) => Some (submatches re s b e cs)
  | None => None
  end.

(** [FindString]: the text of the leftmost match, empty if none. *)
Definition FindString (re : Regexp) (s : string) : string :=
  match search (expr re) 0 s with
  | Some (b, e, _) => sliceTo (e - b) (sliceFrom b s)
  | None => EmptyString
  end.

Definition MatchString (re : Regexp) (s : string) : bool :=
  match search (expr re) 0 s with
  | Some _ => true
  | None => false
  end.

(** [FindAllStringSubmatch(s, -1)]: the successive non-overlapping
    matches, each search resuming where the previous match ended (one
    byte further after an empty match). *)
Fixpoint findAllFrom (fuel : nat) (re : Regexp) (whole : string)
         (off : nat) (s : string) : list (list string) :=
  match fuel with
  | O => []
  | S f =>
      match search (expr re) off s with
      | None => []
      | Some (b, e, cs) =>
          let next := if Nat.eqb e b then S e else e in
          submatches re whole b e cs
          :: findAllFrom f re whole next (sliceFrom (next - off) s)
      end
  end.

Definition FindAllStringSubmatch (re : Regexp) (s : string)
  : list (list string) :=
  findAllFrom (S (String.length s)) re s 0 s.

(** Indexing a submatch slice. *)
Definition sub (m : list string) (i : nat) : string :=
  nth i m EmptyString.

End Regexp.

Import Regexp.

(** ** [strconv.ParseFloat]

    The nearest binary64 value (ties to even) of a decimal literal, which
    is what [strconv.ParseFloat(s, 64)] returns; the error is dropped at
    every call site, and a syntax error comes with the value 0.  The
    patterns only ever capture digits and dots for it, so signs, exponents
    and the special literals are not modelled: any other byte is a syntax
    error here. *)

Module GoFloat.

Definition float64 : Set := float.

(** [q * 2^e] as a float, for [0 <= q <= 2^53]. *)
Definition assemble (q e : Z) : float64 :=
  if 1100 <? e then infinity
  else ldshiftexp (of_uint63 (Uint63.of_Z q)) (Uint63.of_Z (e + 2101)).

(** Quotient rounded to nearest, ties to even. *)
Definition roundDiv (num den : Z) : Z :=
  let q := num / den in
  let r := num mod den in
  if (den <? 2 * r) || ((den =? 2 * r) && Z.odd q) then q + 1 else q.

(** [m / (d * 2^e)] as a fraction of integers. *)
Definition scaled (m d e : Z) : Z * Z :=
  if e <? 0 then (m * 2 ^ (- e), d) else (m, d * 2 ^ e).

(** The binary64 value nearest to [m / d], for [0 <= m] and [0 < d]. *)
Definition nearest (m d : Z) : float64 :=
  if m =? 0 then zero
  else
    let e0 := Z.max (Z.log2 m - Z.log2 d - 53) (-1074) in
    let '(n0, d0) := scaled m d e0 in
    let e := if 2 ^ 53 <=? n0 / d0 then e0 + 1 else e0 in
    let '(n, d1) := scaled m d e in
    assemble (roundDiv n d1) e.

(** Reads [digits [. digits]]: the digits as an integer, the number of
    digits read, and the number of them after the dot. *)
Fixpoint readDecimal (s : string) (sawDot : bool) (m : Z) (nd frac : nat)
  : option (Z * nat * nat) :=
  match s with
  | EmptyString => Some (m, nd, frac)
  | String c s' =>
      if isDigit c
      then readDecimal s' sawDot
             (10 * m + Z.of_nat (nat_of_ascii c - 48)) (S nd)
             (if sawDot then S frac else frac)
      else if Ascii.eqb c "." && negb sawDot
           then readDecimal s' true m nd frac
           else None
  end.

Definition ParseFloat (s : string) : float64 :=
  match readDecimal s false 0 0 0 with
  | Some (m, S _, frac) => nearest m (10 ^ Z.of_nat frac)
  | _ => zero
  end.

End GoFloat.

Import GoFloat.

(** ** The package [traceroute]: data *)

(** [Hop] represents a single traceroute hop result. *)
Record Hop : Set := mkHop {
  TTL : Z;
  IP : string;
  Hostname : string;
  RTT : float64;          (* milliseconds, first probe *)
  Success : bool;
  IsFinal : bool;
  IsTimeout : bool
}.

(** The zero value [Hop{}]. *)
Definition zeroHop : Hop := mkHop 0 "" "" zero false false false.

(** [Hop{TTL: ttl, Success: false, IsTimeout: true}]. *)
Definition timeoutHop (ttl : Z) : Hop := mkHop ttl "" "" zero false false true.

Definition withIsFinal (h : Hop) (b : bool) : Hop :=
  mkHop (TTL h) (IP h) (Hostname h) (RTT h) (Success h) b (IsTimeout h).

Definition withHostname (h : Hop) (name : string) : Hop :=
  mkHop (TTL h) (IP h) name (RTT h) (Success h) (IsFinal h) (IsTimeout h).

(** [Options] configures a traceroute run. *)
Record Options : Set := mkOptions { MaxHops : Z; TimeoutMs : Z }.

Definition DefaultOptions : Options := mkOptions 30 3000.

(** The values of type [error] a run returns; [None] is [nil]. *)
Inductive error : Set :=
| ErrMaxHopsReached
| ErrBinaryNotFound           (* "traceroute binary not found; ..." *)
| ErrUnsupportedPlatform (goos : string)
| ErrExec (msg : string).     (* from [StdoutPipe] or [Start] *)

(** ** Package-level variables

    The six compiled patterns are package-level [var]s.  They are the only
    state the parsers can reach besides their arguments, so the parsers are
    written in a state monad over them. *)

Record Package : Type := mkPackage {
  reUnixHopNumeric : Regexp;
  reUnixHopNamed : Regexp;
  reUnixTimeout : Regexp;
  reWinHop : Regexp;
  reWinRTT : Regexp;
  reWinTimeout : Regexp
}.

Definition ipv4 : regex :=
  Seq [Plus digit; Lit "."; Plus digit; Lit "."; Plus digit; Lit ".";
       Plus digit].

(** The package state after initialisation. *)
Definition initPackage : Package := {|
  (* ^\s*(\d+)\s+(\d+\.\d+\.\d+\.\d+)\s+([\d.]+)\s+ms *)
  reUnixHopNumeric :=
    MustCompile
      (Seq [BeginText; Star space; Group 1 (Plus digit); Plus space;
            Group 2 ipv4; Plus space; Group 3 (Plus digitOrDot);
            Plus space; Lit "m"; Lit "s"]) 3;
  (* ^\s*(\d+)\s+(\S+)\s+\((\d+\.\d+\.\d+\.\d+)\)\s+([\d.]+)\s+ms *)
  reUnixHopNamed :=
    MustCompile
      (Seq [BeginText; Star space; Group 1 (Plus digit); Plus space;
            Group 2 (Plus nonspace); Plus space; Lit "("; Group 3 ipv4;
            Lit ")"; Plus space; Group 4 (Plus digitOrDot); Plus space;
            Lit "m"; Lit "s"]) 4;
  (* ^\s*(\d+)\s+\* *)
  reUnixTimeout :=
    MustCompile
      (Seq [BeginText; Star space; Group 1 (Plus digit); Plus space;
            Lit "*"]) 1;
  (* ^\s*(\d+)\s+(?:<?\d+\s+ms\s+){1,3}\s*(\S+) *)
  reWinHop :=
    MustCompile
      (Seq [BeginText; Star space; Group 1 (Plus digit); Plus space;
            Repeat_1_3
              (Seq [Quest (Lit "<"); Plus digit; Plus space; Lit "m";
                    Lit "s"; Plus space]);
            Star space; Group 2 (Plus nonspace)]) 2;
  (* (\d+)\s+ms *)
  reWinRTT :=
    MustCompile (Seq [Group 1 (Plus digit); Plus space; Lit "m"; Lit "s"]) 1;
  (* ^\s*(\d+)\s+\* *)
  reWinTimeout :=
    MustCompile
      (Seq [BeginText; Star space; Group 1 (Plus digit); Plus space;
            Lit "*"]) 1
|}.

(** A computation that may read and write the package-level
    variables. *)
Definition M (A : Type) : Type := Package -> A * Package.

Definition ret {A : Type} (a : A) : M A := fun g => (a, g).

Definition bind {A B : Type} (m : M A) (f : A -> M B) : M B :=
  fun g => let (a, g') := m g in f a g'.

(** Reading a package-level variable. *)
Definition load {A : Type} (var : Package -> A) : M A := fun g => (var g, g).

Notation "'let*' x := m 'in' k" := (bind m (fun x => k))
  (at level 10, x name, m at level 100, k at level 200).

(** Value and final state of a computation. *)
Definition value {A : Type} (m : M A) (g : Package) : A := fst (m g).
Definition state {A : Type} (m : M A) (g : Package) : Package := snd (m g).

(** ** Line parsers *)

Definition parseUnixLine (line destIP : string) : M (Hop * bool) :=
  let* reTimeout := load reUnixTimeout in
  let* reNumeric := load reUnixHopNumeric in
  let* reNamed := load reUnixHopNamed in
  let hopLine :=
    (* Numeric-only (with -n) *)
    match FindStringSubmatch reNumeric line with
    | Some m =>
        let ttl := Atoi (sub m 1) in
        let ip := sub m 2 in
        let rtt := ParseFloat (sub m 3) in
        (mkHop ttl ip "" rtt true
               (negb (String.eqb destIP "") && String.eqb ip destIP) false,
         true)
    | None =>
        (* Named (hostname + IP) *)
        match FindStringSubmatch reNamed line with
        | Some m =>
            let ttl := Atoi (sub m 1) in
            let hostname := sub m 2 in
            let ip := sub m 3 in
            let rtt := ParseFloat (sub m 4) in
            (mkHop ttl ip hostname rtt true
                   (negb (String.eqb destIP "") && String.eqb ip destIP)
                   false,
             true)
        | None => (zeroHop, false)
        end
    end in
  (* Timeout *)
  match FindStringSubmatch reTimeout line with
  | Some m =>
      if Contains line "*"
         && String.eqb (FindString reNumeric line) ""
         && String.eqb (FindString reNamed line) ""
      then ret (timeoutHop (Atoi (sub m 1)), true)
      else ret hopLine
  | None => ret hopLine
  end.

Definition parseWindowsLine (line destIP : string) : M (Hop * bool) :=
  let* reTimeout := load reWinTimeout in
  let* reHop := load reWinHop in
  let* reRTT := load reWinRTT in
  if MatchString reTimeout line && Contains line "*"
  then
    (* the pattern has just matched, so [m] is not nil *)
    let m := default [] (FindStringSubmatch reTimeout line) in
    ret (timeoutHop (Atoi (sub m 1)), true)
  else
    match FindStringSubmatch reHop line with
    | None => ret (zeroHop, false)
    | Some m =>
        let ttl := Atoi (sub m 1) in
        let host := TrimSpace (sub m 2) in
        let rtts := FindAllStringSubmatch reRTT line in
        let rtt :=
          match rtts with
          | r0 :: _ => ParseFloat (sub r0 1)
          | [] => zero
          end in
        let idx := Index host " [" in
        let '(ip, hostname) :=
          if negb (idx =? -1)
          then (Trim (sliceFrom (Z.to_nat (idx + 2)) host) "]",
                sliceTo (Z.to_nat idx) host)
          else (host, "") in
        ret (mkHop ttl ip hostname rtt true
               (negb (String.eqb destIP "")
                && (String.eqb ip destIP || String.eqb host destIP))
               false,
             true)
    end.

(** ** The world outside the package

    What a run obtains from the operating system, the network and the Go
    runtime.  Results that can differ from one call to the next are indexed
    by the call. *)

(** [net.IP] is a byte slice. *)
Definition netIP : Set := list N.

Record World : Type := mkWorld {
  (** [runtime.GOOS] *)
  GOOS : string;
  (** [exec.LookPath]: the path found, [None] for an error *)
  LookPath : string -> option string;
  (** [net.ParseIP]: [None] is nil *)
  ParseIP : string -> option netIP;
  (** [ip.To4()]: [None] is nil *)
  To4 : netIP -> option netIP;
  (** [ip.String()] *)
  IPString : netIP -> string;
  (** [net.LookupHost], by the number of the call within the run: the
      addresses, [None] for an error *)
  LookupHost : nat -> string -> option (list string);
  (** [net.LookupAddr] as called by the probe of a TTL *)
  LookupAddr : Z -> string -> option (list string);
  (** index at which a [range] over a map happens to start *)
  rangeStart : nat;
  (** [cmd.Output()]: the standard output a finished process left, its
      error dropped as the caller drops it *)
  Output : string -> list string -> string;
  (** [cmd.StdoutPipe()] and [cmd.Start()], as they answer under the
      context of the run: an error (which is what [cmd.Start()] returns
      when that context is already done), or the lines the scanner then
      reads from the process until its output ends (early, when the
      process is killed on cancellation) *)
  Start : string -> list string -> string + list string
}.

(** A [context.Context] seen from the run.  The run observes it at
    successive moments, numbered from 0; once done it stays done. *)
Record Context : Set := mkContext {
  (** the first moment at which the context is done, if any *)
  cancelledAt : option nat;
  (** when a send and [ctx.Done()] are both ready, whether the [select]
      at that moment takes the send *)
  sendWins : nat -> bool
}.

(** [ctx.Err() != nil] at moment [t]. *)
Definition ctxErr (ctx : Context) (t : nat) : bool :=
  match cancelledAt ctx with
  | Some c => (c <=? t)%nat
  | None => false
  end.

(** [select { case hops <- hop: ; case <-ctx.Done(): }] takes the second
    case.  While the context is not done the send is taken to complete:
    the caller receives. *)
Definition selectDone (ctx : Context) (t : nat) : bool :=
  ctxErr ctx t && negb (sendWins ctx t).

(** How a call ends. *)
Inductive termination : Set :=
| Returns (err : option error)
| Panics.

(** What can be observed of a run. *)
Record Result : Type := mkResult {
  (** the command lines executed, in launch order *)
  commands : list (string * list string);
  (** parallel strategy: the filled slots of [results] once all probes
      are done, in slot order *)
  collected : list Hop;
  (** the hops sent on the [hops] channel, in order *)
  emitted : list Hop;
  outcome : termination;
  (** the moment of the last event of the run *)
  clock : nat
}.

(** ** Helpers *)

Definition tracerouteBinary (w : World) : error + string :=
  if String.eqb (GOOS w) "darwin" then inr "/usr/sbin/traceroute"
  else if String.eqb (GOOS w) "linux" then
    match LookPath w "/usr/bin/traceroute" with
    | Some _ => inr "/usr/bin/traceroute"
    | None =>
        match LookPath w "/usr/sbin/traceroute" with
        | Some _ => inr "/usr/sbin/traceroute"
        | None =>
            match LookPath w "traceroute" with
            | Some p => inr p
            | None => inl ErrBinaryNotFound
            end
        end
    end
  else inl (ErrUnsupportedPlatform (GOOS w)).

(** [resolveIPs] returns all IPv4 addresses for a host as a set.  If the
    host is already an IP, returns a set containing just that IP.  [call]
    numbers the DNS lookup. *)
Definition resolveIPs (w : World) (call : nat) (host : string) : gset string :=
  match ParseIP w host with
  | Some ip => {[ IPString w ip ]}
  | None =>
      match LookupHost w call host with
      | None => ∅
      | Some addrs =>
          fold_left
            (fun (set : gset string) (a : string) =>
               match ParseIP w a with
               | Some ip =>
                   match To4 w ip with
                   | Some _ => {[ a ]} ∪ set
                   | None => set
                   end
               | None => set
               end)
            addrs ∅
      end
  end.

(** [resolveIP] returns the first address the iteration over the set
    yields, for display / single-comparison use. *)
Definition resolveIP (w : World) (call : nat) (host : string) : string :=
  match elements (resolveIPs w call host) with
  | [] => host
  | ip :: ips =>
      nth (rangeStart w mod List.length (ip :: ips))%nat (ip :: ips) host
  end.

Definition newline : ascii := byte 10.

(** [opts.TimeoutMs / 1000], at least 1. *)
Definition timeoutSecsOf (opts : Options) : Z :=
  let timeoutSecs := Z.quot (TimeoutMs opts) 1000 in
  if timeoutSecs <? 1 then 1 else timeoutSecs.

(** ** Parallel implementation (macOS / Linux) *)

(** The arguments of the probe of one TTL. *)
Definition probeArgs (dest : string) (timeoutSecs ttl : Z) : list string :=
  ["-f"; Itoa ttl; "-m"; Itoa ttl; "-q"; "1"; "-w"; Itoa timeoutSecs;
   "-n"; dest].

(** The loop over the lines of a probe's output: the first line that
    parses, or the zero [Hop]. *)
Fixpoint firstHop (lines : list string) (destIP : string) : M Hop :=
  match lines with
  | [] => ret zeroHop
  | l :: rest =>
      let line := TrimSpace l in
      if String.eqb line "" || HasPrefix line "traceroute"
      then firstHop rest destIP
      else
        let* r := parseUnixLine line destIP in
        if snd r then ret (fst r) else firstHop rest destIP
  end.

(** The body of the goroutine started for [ttl], up to the store into
    [results]. *)
Definition probe (w : World) (binary dest destIP : string)
           (timeoutSecs ttl : Z) : M Hop :=
  let out := Output w binary (probeArgs dest timeoutSecs ttl) in
  let* hop := firstHop (Split out newline) destIP in
  (* If we got nothing (context cancelled, binary error) emit a timeout. *)
  let hop := if TTL hop =? 0 then timeoutHop ttl else hop in
  (* Async reverse-DNS. *)
  let hop :=
    if Success hop && String.eqb (Hostname hop) ""
       && negb (String.eqb (IP hop) "")
    then
      match LookupAddr w ttl (IP hop) with
      | Some (name :: _) => withHostname hop (TrimSuffix name ".")
      | _ => hop
      end
    else hop in
  ret hop.

(** The launch loop, [n] TTLs from [ttl] on, with the probes it starts
    run to completion: the two buffers, the commands executed and the
    moment reached.  The goroutines share nothing but the context and
    each stores into its own slot, and the run waits for all of them
    ([wg.Wait()]) before it reads a slot, so the order in which they
    finish cannot be observed; they are run here in launch order. *)
Fixpoint launch (w : World) (ctx : Context) (binary dest destIP : string)
         (timeoutSecs : Z) (n : nat) (ttl : Z) (t : nat)
         (results : list Hop) (gotResult : list bool)
  : M (list Hop * list bool * list (string * list string) * nat) :=
  match n with
  | O => ret (results, gotResult, [], t)
  | S n' =>
      if ctxErr ctx t then ret (results, gotResult, [], t)
      else
        let idx := Z.to_nat (ttl - 1) in
        let* hop := probe w binary dest destIP timeoutSecs ttl in
        let* rest :=
          launch w ctx binary dest destIP timeoutSecs n' (ttl + 1) (S t)
                 (<[idx := hop]> results) (<[idx := true]> gotResult) in
        let '(results', gotResult', cmds, t') := rest in
        ret (results', gotResult',
             (binary, probeArgs dest timeoutSecs ttl) :: cmds, t')
  end.

(** The test that makes a result the true final hop. *)
Definition looksFinal (destIPs : gset string) (h : Hop) : bool :=
  Success h
  && (IsFinal h
      || ((0 <? size destIPs)%nat && bool_decide (IP h ∈ destIPs))).

(** Find the lowest TTL that hit any of the destination's IPs. *)
Fixpoint findTrueFinal (destIPs : gset string) (slots : list (Hop * bool))
  : Z :=
  match slots with
  | [] => 0
  | (h, got) :: rest =>
      if negb got then findTrueFinal destIPs rest
      else if looksFinal destIPs h then TTL h
           else findTrueFinal destIPs rest
  end.

(** Correct isFinal flags and stream in TTL order up to trueFinalTTL:
    the hops sent, whether the loop returned on [ctx.Done()], and the
    moment reached. *)
Fixpoint stream (ctx : Context) (trueFinalTTL : Z)
         (slots : list (Hop * bool)) (t : nat) : list Hop * bool * nat :=
  match slots with
  | [] => ([], false, t)
  | (h, got) :: rest =>
      if negb got then stream ctx trueFinalTTL rest t
      else
        let hop :=
          withIsFinal h ((0 <? trueFinalTTL) && (TTL h =? trueFinalTTL)) in
        if selectDone ctx t then ([], true, t)
        else if IsFinal hop then ([hop], false, S t)
             else
               let '(sent, done, t') := stream ctx trueFinalTTL rest (S t) in
               (hop :: sent, done, t')
  end.

Definition filled (slots : list (Hop * bool)) : list Hop :=
  List.map fst (List.filter snd slots).

(** [make([]Hop, opts.MaxHops)] panics on a negative length; a length
    beyond what the allocator grants is outside the model. *)
Definition runParallel (w : World) (ctx : Context) (dest : string)
           (opts : Options) : M Result :=
  match tracerouteBinary w with
  | inl err => ret (mkResult [] [] [] (Returns (Some err)) 0)
  | inr binary =>
      let timeoutSecs := timeoutSecsOf opts in
      let destIPs := resolveIPs w 0 dest in
      let destIP := resolveIP w 1 dest in
      if MaxHops opts <? 0
      then ret (mkResult [] [] [] Panics 0)
      else
        let n := Z.to_nat (MaxHops opts) in
        let* probed :=
          launch w ctx binary dest destIP timeoutSecs n 1 0
                 (repeat zeroHop n) (repeat false n) in
        let '(results, gotResult, cmds, t) := probed in
        let slots := combine results gotResult in
        let trueFinalTTL := findTrueFinal destIPs slots in
        let '(sent, done, t') := stream ctx trueFinalTTL slots t in
        if done then ret (mkResult cmds (filled slots) sent (Returns None) t')
        else if ctxErr ctx t'
        then ret (mkResult cmds (filled slots) sent (Returns None) t')
        else if trueFinalTTL =? 0
        then ret (mkResult cmds (filled slots) sent
                           (Returns (Some ErrMaxHopsReached)) t')
        else ret (mkResult cmds (filled slots) sent (Returns None) t')
  end.

(** ** Sequential implementation (Windows / fallback) *)

(** The [switch runtime.GOOS] choosing the command line. *)
Definition sequentialCommand (w : World) (dest : string) (opts : Options)
  : error + (string * list string) :=
  let timeoutSecs := timeoutSecsOf opts in
  if String.eqb (GOOS w) "windows"
  then inr ("tracert",
            ["-h"; Itoa (MaxHops opts); "-w"; Itoa (TimeoutMs opts); dest])
  else
    match tracerouteBinary w with
    | inl err => inl err
    | inr b =>
        inr (b, ["-m"; Itoa (MaxHops opts); "-w"; Itoa timeoutSecs;
                 "-q"; "1"; dest])
    end.

(** How the scanning loop was left. *)
Inductive loopExit : Set :=
| ReturnedNil        (* [return nil] on [ctx.Done()] *)
| ReachedDest        (* [break] on a final hop *)
| EndOfOutput.       (* [scanner.Scan()] returned false *)

(** The scanning loop over the lines still to come: the hops sent, the
    highest TTL seen, how the loop was left and at which moment.  The
    send [hops <- hop] is taken to complete: the caller receives. *)
Fixpoint scanLoop (w : World) (ctx : Context) (destIP : string)
         (lines : list string) (t : nat) (lastTTL : Z)
  : M (list Hop * Z * loopExit * nat) :=
  match lines with
  | [] => ret ([], lastTTL, EndOfOutput, t)
  | line :: rest =>
      if ctxErr ctx t then ret ([], lastTTL, ReturnedNil, t)
      else if String.eqb line ""
              || HasPrefix (TrimSpace line) "traceroute"
              || HasPrefix (TrimSpace line) "Tracing"
      then scanLoop w ctx destIP rest (S t) lastTTL
      else
        let* r :=
          (if String.eqb (GOOS w) "windows"
           then parseWindowsLine line destIP
           else parseUnixLine line destIP) in
        let '(hop, ok) := r in
        if negb ok then scanLoop w ctx destIP rest (S t) lastTTL
        else
          let lastTTL' := if lastTTL <? TTL hop then TTL hop else lastTTL in
          if IsFinal hop then ret ([hop], lastTTL', ReachedDest, S t)
          else
            let* more := scanLoop w ctx destIP rest (S t) lastTTL' in
            let '(sent, last, exit, t') := more in
            ret (hop :: sent, last, exit, t')
  end.

Definition runSequential (w : World) (ctx : Context) (dest : string)
           (opts : Options) : M Result :=
  match sequentialCommand w dest opts with
  | inl err => ret (mkResult [] [] [] (Returns (Some err)) 0)
  | inr (binary, args) =>
      match Start w binary args with
      | inl msg =>
          ret (mkResult [(binary, args)] [] []
                        (Returns (Some (ErrExec msg))) 0)
      | inr lines =>
          let destIP := resolveIP w 0 dest in
          let* scanned := scanLoop w ctx destIP lines 0 0 in
          let '(sent, lastTTL, exit, t) := scanned in
          match exit with
          | ReturnedNil =>
              ret (mkResult [(binary, args)] [] sent (Returns None) t)
          | ReachedDest =>
              ret (mkResult [(binary, args)] [] sent (Returns None) t)
          | EndOfOutput =>
              if MaxHops opts <=? lastTTL
              then ret (mkResult [(binary, args)] [] sent
                                 (Returns (Some ErrMaxHopsReached)) t)
              else ret (mkResult [(binary, args)] [] sent (Returns None) t)
          end
      end
  end.

(** ** The entry point

    [Run] executes parallel per-TTL traceroute probes on Unix, or a single
    sequential traceroute on Windows.  [opts = None] is a nil pointer. *)
Definition Run (w : World) (ctx : Context) (dest : string)
           (opts : option Options) : M Result :=
  let opts := default DefaultOptions opts in
  if String.eqb (GOOS w) "windows"
  then runSequential w ctx dest opts
  else runParallel w ctx dest opts.

(** ** Reading a command line *)

(** The argument that follows a flag. *)
Fixpoint flagValue (flag : string) (args : list string) : option string :=
  match args with
  | a :: ((v :: _) as rest) =>
      if String.eqb a flag then Some v else flagValue flag rest
  | _ => None
  end.

(** The per-hop wait a command line asks for, in milliseconds:
    [tracert -w] counts milliseconds, [traceroute -w] counts seconds. *)
Definition perHopWaitMs (cmd : string * list string) : option Z :=
  match flagValue "-w" (snd cmd) with
  | Some v =>
      Some (if String.eqb (fst cmd) "tracert" then Atoi v else 1000 * Atoi v)
  | None => None
  end.

(** ** Package [db]: what [SaveTrace] stores of a trace *)

Module DB.

(** [HopRecord] mirrors [traceroute.Hop] but belongs to a stored trace. *)
Record HopRecord : Set := mkHopRecord {
  TTL : Z;
  IP : string;
  Hostname : string;
  RTT : float64;
  Success : bool;
  IsFinal : bool
}.

(** The body of the loop [for _, h := range hops] of [SaveTrace], on the
    counters [hopCount], [timeoutCount] and [totalRTT]. *)
Definition count (acc : Z * Z * float64) (h : HopRecord) : Z * Z * float64 :=
  let '(hopCount, timeoutCount, totalRTT) := acc in
  if Success h
  then (hopCount + 1, timeoutCount, if IsFinal h then RTT h else totalRTT)
  else (hopCount, timeoutCount + 1, totalRTT).

(** The counters [SaveTrace] binds to its [INSERT INTO traces]. *)
Definition summary (hops : list HopRecord) : Z * Z * float64 :=
  fold_left count hops (0, 0, zero).

End DB.

(** ** Package [main]: the application *)

(** [StartTraceroute]: a collected hop as it is handed to [SaveTrace]. *)
Definition toHopRecord (h : Hop) : DB.HopRecord :=
  DB.mkHopRecord (TTL h) (IP h) (Hostname h) (RTT h) (Success h) (IsFinal h).

(** [strings.Fields]: the maximal runs of bytes that belong to no white
    space rune.  [cur] holds the field being read, reversed. *)
Definition flush (cur : string) : list string :=
  match cur with
  | EmptyString => []
  | _ => [revString cur]
  end.

Fixpoint fieldsFuel (fuel : nat) (s cur : string) : list string :=
  match fuel with
  | O => flush cur
  | S f =>
      match s with
      | EmptyString => flush cur
      | String c s' =>
          match spacePrefix unicodeSpaces s with
          | O => fieldsFuel f s' (String c cur)
          | n => (flush cur ++ fieldsFuel f (sliceFrom n s) EmptyString)%list
          end
      end
  end.

Definition Fields (s : string) : list string :=
  fieldsFuel (String.length s) s EmptyString.

(** The addresses [GetHostSuggestions] skips. *)
Definition skippedAddress (ip : string) : bool :=
  String.eqb ip "127.0.0.1" || String.eqb ip "::1"
  || String.eqb ip "255.255.255.255" || String.eqb ip "fe80::1%lo0".

(** The loop over [fields[1:]]: the map [seen] and the slice [results]
    after it. *)
Fixpoint addNames (names : list string) (seen : gset string)
         (results : list string) : gset string * list string :=
  match names with
  | [] => (seen, results)
  | name :: rest =>
      if HasPrefix name "#" then (seen, results)
      else if bool_decide (name ∈ seen) then addNames rest seen results
           else addNames rest ({[ name ]} ∪ seen) (results ++ [name])%list
  end.

(** The loop over the lines the scanner yields. *)
Fixpoint scanHosts (lines : list string) (seen : gset string)
         (results : list string) : list string :=
  match lines with
  | [] => results
  | text :: rest =>
      let line := TrimSpace text in
      if String.eqb line "" || HasPrefix line "#"
      then scanHosts rest seen results
      else
        match Fields line with
        | ip :: ((_ :: _) as names) =>
            if skippedAddress ip then scanHosts rest seen results
            else
              let '(seen', results') := addNames names seen results in
              scanHosts rest seen' results'
        | _ => scanHosts rest seen results      (* len(fields) < 2 *)
        end
  end.

(** [GetHostSuggestions], given what opening and scanning [/etc/hosts]
    yields: [None] when it cannot be opened. *)
Definition GetHostSuggestions (hosts : option (list string)) : list string :=
  match hosts with
  | None => []
  | Some lines => scanHosts lines ∅ []
  end.

(** ** The frontend *)

Module Frontend.

(** [HopData], the payload of a ["hop"] event: the JSON image of a
    [Hop], with the optional [isPending]. *)
Record HopData : Set := mkHopData {
  ttl : Z;
  ip : string;
  hostname : string;
  rtt : float64;
  success : bool;
  isFinal : bool;
  isTimeout : bool;
  isPending : option bool
}.

(** The value a ["hop"] event carries for a hop: fields by JSON tag. *)
Definition hopEvent (h : Hop) : HopData :=
  mkHopData (TTL h) (IP h) (Hostname h) (RTT h) (Success h) (IsFinal h)
            (IsTimeout h) None.

(** [handleLoadTrace]: a stored hop as the table shows it. *)
Definition asHopData (h : DB.HopRecord) : HopData :=
  mkHopData (DB.TTL h) (DB.IP h) (DB.Hostname h) (DB.RTT h) (DB.Success h)
            (DB.IsFinal h) (negb (DB.Success h)) None.

(** Truthiness of [h.isPending]. *)
Definition pending (h : HopData) : bool :=
  match isPending h with
  | Some b => b
  | None => false
  end.

(** *** [HopTable] *)

Definition successCount (hops : list HopData) : nat :=
  List.length (List.filter (fun h => success h && negb (pending h)) hops).

Definition timeoutCount (hops : list HopData) : nat :=
  List.length (List.filter (fun h => negb (success h) && negb (pending h)) hops).


Inductive Row : Set :=
| HopItem (hop : HopData) (index : nat)
| TimeoutGroup (ttls : list Z).

(** The inner loop of [rows]: the TTLs of the run of timeouts the hops
    start with, and the hops from where it stops. *)
Fixpoint timeoutRun (hops : list HopData) : list Z * list HopData :=
  match hops with
  | h :: rest =>
      if negb (success h) && negb (pending h)
      then let '(group, rest') := timeoutRun rest in (ttl h :: group, rest')
      else ([], hops)
  | [] => ([], [])
  end.

(** The outer loop, on the hops from [i] on.  Each turn moves [i]
    forward, so no more turns than hops are needed. *)
Fixpoint rowsFrom (turns : nat) (hops : list HopData) (hopIndex : nat)
  : list Row :=
  match turns, hops with
  | S turns', hop :: rest =>
      if pending hop
      then HopItem hop hopIndex :: rowsFrom turns' rest (S hopIndex)
      else if negb (success hop)
      then let '(group, rest') := timeoutRun hops in
           TimeoutGroup group :: rowsFrom turns' rest' hopIndex
      else HopItem hop hopIndex :: rowsFrom turns' rest (S hopIndex)
  | _, _ => []
  end.

Definition rows (hops : list HopData) : list Row :=
  rowsFrom (List.length hops) hops 0.

(** *** [App] *)

(** [Map<number, HopData>]: its entries in insertion order. *)
Definition HopMap : Set := list (Z * HopData).

(** [m.set(k, v)]: a key already present keeps its place. *)
Fixpoint mapSet (m : HopMap) (k : Z) (v : HopData) : HopMap :=
  match m with
  | [] => [(k, v)]
  | (k', v') :: m' =>
      if k' =? k then (k, v) :: m' else (k', v') :: mapSet m' k v
  end.

(** The listener of ["hop"]: [new Map(prev).set(hop.ttl, hop)]. *)
Definition onHop (prev : HopMap) (hop : HopData) : HopMap :=
  mapSet prev (ttl hop) hop.

(** [sort((a, b) => a.ttl - b.ttl)], which is stable: a hop goes before
    the hops already placed that do not have a lower TTL. *)
Fixpoint insertByTTL (h : HopData) (sorted : list HopData) : list HopData :=
  match sorted with
  | x :: rest =>
      if ttl h <=? ttl x then h :: sorted else x :: insertByTTL h rest
  | [] => [h]
  end.

Definition sortByTTL (l : list HopData) : list HopData :=
  fold_right insertByTTL [] l.

(** The memo [hops]: [[...hopMap().values()].sort(...)]. *)
Definition hops (m : HopMap) : list HopData := sortByTTL (List.map snd m).

End Frontend.

(** ** Vocabulary of the statements and of their proofs *)

(** A computation that leaves the package-level variables as they
    were. *)
Definition readOnly {A : Type} (m : M A) : Prop :=
  forall g : Package, state m g = g.





(** A continuation that only succeeds on a text starting with a byte of
    the class [q]. *)
Definition needs {R : Type} (q : ascii -> bool) (k : @cont R) : Prop :=
  forall (pos : nat) (s : string) (cs : captures) (res : R),
    k pos s cs = Some res ->
    exists (c : ascii) (s' : string), s = String c s' /\ q c = true.

(** The result of a parser is a hop that succeeded, a timeout, or "not
    a data line" with the zero hop. *)
Inductive parsed : Hop * bool -> Prop :=
| parsed_hop (ttl : Z) (ip hostname : string) (rtt : float64) (final : bool) :
    parsed (mkHop ttl ip hostname rtt true final false, true)
| parsed_timeout (ttl : Z) : parsed (timeoutHop ttl, true)
| parsed_none : parsed (zeroHop, false).

(** Running a computation twice in a row. *)
Definition twice {A : Type} (m : M A) : M (A * A) :=
  let* a := m in let* b := m in ret (a, b).

(** Slots known to be filled. *)
Definition tag (hs : list Hop) : list (Hop * bool) :=
  List.map (fun h => (h, true)) hs.

(** Number of probes the launch loop starts: it stops at the first
    moment the context is done. *)
Fixpoint launchedCount (ctx : Context) (t n : nat) : nat :=
  match n with
  | O => O
  | S n' => if ctxErr ctx t then O else S (launchedCount ctx (S t) n')
  end.

(** The hops the probes of slots [i], [i+1], ... [i+k-1] store. *)
Definition probes (w : World) (g : Package) (binary dest destIP : string)
           (timeoutSecs : Z) (i k : nat) : list Hop :=
  List.map
    (fun j => value (probe w binary dest destIP timeoutSecs (Z.of_nat (S j))) g)
    (seq i k).

Definition probeCommands (binary dest : string) (timeoutSecs : Z) (i k : nat)
  : list (string * list string) :=
  List.map (fun j => (binary, probeArgs dest timeoutSecs (Z.of_nat (S j))))
           (seq i k).

(** The outcome the end of [runParallel] computes. *)
Definition parallelOutcome (ctx : Context) (done : bool) (t : nat) (T : Z)
  : termination :=
  if done || ctxErr ctx t then Returns None
  else if T =? 0 then Returns (Some ErrMaxHopsReached) else Returns None.


Definition cleared (h : Hop) : Hop := withIsFinal h false.
Definition marked (h : Hop) : Hop := withIsFinal h true.

(** An address the resolver keeps: it parses and has a 4-byte form. *)
Definition isIPv4 (w : World) (a : string) : Prop :=
  exists ip ip4 : netIP, ParseIP w a = Some ip /\ To4 w ip = Some ip4.

(** The same world with another reverse resolver. *)
Definition withLookupAddr (w : World)
           (f : Z -> string -> option (list string)) : World :=
  mkWorld (GOOS w) (LookPath w) (ParseIP w) (To4 w) (IPString w)
          (LookupHost w) f (rangeStart w) (Output w) (Start w).

(** The same world with another answer to starting a process. *)
Definition withStart (w : World)
           (start : string -> list string -> string + list string) : World :=
  mkWorld (GOOS w) (LookPath w) (ParseIP w) (To4 w) (IPString w)
          (LookupHost w) (LookupAddr w) (rangeStart w) (Output w) start.

(** Two hops that differ at most in their host name. *)
Definition sameButHostname (h h' : Hop) : Prop :=
  withHostname h "" = withHostname h' "".

(** The same context, never cancelled. *)
Definition uncancelled (ctx : Context) : Context :=
  mkContext None (sendWins ctx).

(** Every byte of the text is in the class. *)
Fixpoint every (p : ascii -> bool) (s : string) : bool :=
  match s with
  | EmptyString => true
  | String c s' => p c && every p s'
  end.

(** The numbers of the capturing groups of a pattern. *)
Fixpoint groupsOf (r : regex) : list nat :=
  match r with
  | Group i r1 => i :: groupsOf r1
  | Cat r1 r2 => (groupsOf r1 ++ groupsOf r2)%list
  | Quest r1 => groupsOf r1
  | BeginText | Class _ | Star _ | Empty => []
  end.

(** The TTLs a row of the table stands for. *)
Definition rowTTLs (r : Frontend.Row) : list Z :=
  match r with
  | Frontend.HopItem hop _ => [Frontend.ttl hop]
  | Frontend.TimeoutGroup ttls => ttls
  end.

Definition isTimeoutGroup (r : Frontend.Row) : bool :=
  match r with
  | Frontend.TimeoutGroup _ => true
  | Frontend.HopItem _ _ => false
  end.

(** The indices of the hop rows, in order. *)
Definition rowIndices (rs : list Frontend.Row) : list nat :=
  omap (fun r => match r with
                 | Frontend.HopItem _ i => Some i
                 | Frontend.TimeoutGroup _ => None
                 end) rs.

(** No two rows in a row are both timeout groups. *)
Fixpoint noAdjacentGroups (rs : list Frontend.Row) : Prop :=
  match rs with
  | r1 :: ((r2 :: _) as rest) =>
      (isTimeoutGroup r1 && isTimeoutGroup r2 = false) /\ noAdjacentGroups rest
  | _ => True
  end.

(** A hop the table counts as a timeout. *)
Definition timedOut (h : Frontend.HopData) : bool :=
  negb (Frontend.success h) && negb (Frontend.pending h).

(** The hops a row of the table stands for: a hop row for its hop, which
    is no timeout, a group for a run of timeouts. *)
Inductive covers : Frontend.Row -> list Frontend.HopData -> Prop :=
| covers_hop (hop : Frontend.HopData) (i : nat) :
    timedOut hop = false -> covers (Frontend.HopItem hop i) [hop]
| covers_group (run : list Frontend.HopData) :
    run <> [] -> Forall (fun h => timedOut h = true) run ->
    covers (Frontend.TimeoutGroup (List.map Frontend.ttl run)) run.

(** The names of a line of [/etc/hosts] up to its first comment. *)
Fixpoint upToComment (names : list string) : list string :=
  match names with
  | name :: rest => if HasPrefix name "#" then [] else name :: upToComment rest
  | [] => []
  end.

(** The names a line of [/etc/hosts] contributes. *)
Definition hostNames (text : string) : list string :=
  let line := TrimSpace text in
  if String.eqb line "" || HasPrefix line "#" then []
  else match Fields line with
       | ip :: ((_ :: _) as names) =>
           if skippedAddress ip then [] else upToComment names
       | _ => []
       end.

(** Ascending TTLs, none twice. *)
Fixpoint ascending (l : list Frontend.HopData) : Prop :=
  match l with
  | h :: rest =>
      Forall (fun x => Frontend.ttl h < Frontend.ttl x) rest /\ ascending rest
  | [] => True
  end.

(** The last of the events that carries its TTL. *)
Definition lastOfItsTTL (events : list Frontend.HopData) (h : Frontend.HopData)
  : Prop :=
  exists pre post : list Frontend.HopData,
    events = (pre ++ h :: post)%list
    /\ Forall (fun h' => Frontend.ttl h' <> Frontend.ttl h) post.

(** The highest TTL among hops, 0 when there is none above it. *)
Definition highestTTL (hs : list Hop) : Z :=
  fold_left (fun top h => if top <? TTL h then TTL h else top) hs 0.

(** ** Sample worlds

    Concrete worlds on which the model is run below.  Their [net]
    functions know dotted-quad IPv4 addresses only, which is all the
    examples use. *)

Module Sample.

(** A decimal octet without leading zeros. *)
Definition octet (s : string) : option N :=
  match unsignedValue s with
  | Some v =>
      if (v <=? 255) && (String.length s <=? 3)%nat
         && negb (HasPrefix s "0" && (1 <? String.length s)%nat)
      then Some (Z.to_N v) else None
  | None => None
  end.

Definition v4InV6Prefix : list N :=
  [0; 0; 0; 0; 0; 0; 0; 0; 0; 0; 255; 255]%N.

Definition parseDottedQuad (s : string) : option netIP :=
  match List.map octet (Split s "."%char) with
  | [Some a; Some b; Some c; Some d] =>
      Some (v4InV6Prefix ++ [a; b; c; d])%list
  | _ => None
  end.

Definition to4 (ip : netIP) : option netIP :=
  if (List.length ip =? 4)%nat then Some ip
  else if (List.length ip =? 16)%nat
          && bool_decide (firstn 12 ip = v4InV6Prefix)
       then Some (skipn 12 ip) else None.

Definition dottedQuad (ip : netIP) : string :=
  match to4 ip with
  | Some [a; b; c; d] =>
      Itoa (Z.of_N a) ++ "." ++ Itoa (Z.of_N b) ++ "."
      ++ Itoa (Z.of_N c) ++ "." ++ Itoa (Z.of_N d)
  | _ => "?"
  end.

Definition never : Context := mkContext None (fun _ => true).

(** A Unix host on which [/usr/sbin/traceroute] answers a probe of a
    TTL with the output [outputs] gives for it. *)
Definition unix (outputs : list (string * string))
           (hosts : list (string * list string)) : World := {|
  GOOS := "darwin";
  LookPath := fun _ => None;
  ParseIP := parseDottedQuad;
  To4 := to4;
  IPString := dottedQuad;
  LookupHost := fun _ host =>
    snd <$> List.find (fun e => String.eqb (fst e) host) hosts;
  LookupAddr := fun _ _ => None;
  rangeStart := 0;
  Output := fun _ args =>
    match flagValue "-f" args with
    | Some ttl =>
        default ""
          (snd <$> List.find (fun e => String.eqb (fst e) ttl) outputs)
    | None => ""
    end;
  Start := fun _ _ => inl "exec: not started"
|}.

(** A Windows host on which [tracert] prints [lines]. *)
Definition windows (lines : list string) : World := {|
  GOOS := "windows";
  LookPath := fun _ => None;
  ParseIP := parseDottedQuad;
  To4 := to4;
  IPString := dottedQuad;
  LookupHost := fun _ _ => None;
  LookupAddr := fun _ _ => None;
  rangeStart := 0;
  Output := fun _ _ => "";
  Start := fun _ _ => inr lines
|}.

(** The scenario of the specification: the destination resolves to
    93.184.216.34, TTLs 1 to 5 answer from routers, TTLs 6 and 9 from
    the destination, the others not at all. *)
Definition scenarioOutputs : list (string * string) :=
  [ ("1", " 1  10.0.0.1  1.100 ms");
    ("2", " 2  10.0.0.2  2.200 ms");
    ("3", " 3  10.0.0.3  3.300 ms");
    ("4", " 4  10.0.0.4  4.400 ms");
    ("5", " 5  10.0.0.5  5.500 ms");
    ("6", "traceroute to example.com (93.184.216.34), 6 hops max
 6  93.184.216.34  10.500 ms
");
    ("7", " 7  *");
    ("9", " 9  93.184.216.34  11.250 ms") ].

Definition scenario : World :=
  unix scenarioOutputs [("example.com", ["93.184.216.34"])].

(** No probe is answered: the first prints its banner only, the second
    a timeout line, the third nothing. *)
Definition silent : World :=
  unix [("1", "traceroute to 192.0.2.1 (192.0.2.1), 1 hops max
");
        ("2", " 2  *")] [].

(** The name of the destination does not resolve. *)
Definition unresolved : World :=
  unix [("1", " 1  10.0.0.1  1.100 ms"); ("2", " 2  *")] [].

End Sample.

(** ** Scenarios *)

(** The hop the probe of TTL 6 stores in the scenario. *)
Definition scenarioFinal : Hop :=
  mkHop 6 "93.184.216.34" "" 10.5%float true true false.

Definition scenarioRun : Result :=
  value (runParallel Sample.scenario Sample.never "example.com"
                     (mkOptions 10 3000)) initPackage.









(** A Windows host whose [tracert] prints one hop line. *)
Definition oneHopWindows : World :=
  Sample.windows ["  1     *        *        *     Request timed out."].

(** The context is cancelled after that line has been read. *)
Definition cancelledAfterFirstLine : Context :=
  mkContext (Some 1%nat) (fun _ => true).

(** [tracert] stops after two hops of thirty, the destination not
    reached. *)
Definition earlyEnd : World :=
  Sample.windows
    ["Tracing route to example.com [93.184.216.34]";
     "over a maximum of 30 hops:";
     "";
     "  1    <1 ms    <1 ms    <1 ms  192.168.1.1";
     "  2     *        *        *     Request timed out."].

(** [tracert] reaches the destination at the second hop. *)
Definition reachedAtTwo : World :=
  Sample.windows
    ["  1    <1 ms    <1 ms    <1 ms  192.168.1.1";
     "  2    12 ms    11 ms    13 ms  93.184.216.34";
     "";
     "Trace complete."].

(** [tracert] is killed after the first of the two hop lines of
    [reachedAtTwo]. *)
Definition killedAfterOne (binary : string) (args : list string)
  : string + list string :=
  inr ["  1    <1 ms    <1 ms    <1 ms  192.168.1.1"].

(** A context cancelled after the second probe is launched. *)
Definition cancelledAtTwo : Context := mkContext (Some 2%nat) (fun _ => true).

(** A reverse resolver that knows the routers of the scenario. *)
Definition routerNames (ttl : Z) (ip : string) : option (list string) :=
  if HasPrefix ip "10.0.0." then Some ["router.example."; "alias.example."]
  else None.

(** [tracert] without [-d] prints a resolved hop as [name [address]]. *)
Definition namedHopWindows : World :=
  Sample.windows
    ["  1    <1 ms    <1 ms    <1 ms  router.local [192.168.1.1]"].

(** A sample [/etc/hosts]. *)
Definition sampleHosts : list string :=
  ["##"; "# Host Database"; "127.0.0.1	localhost";
   "255.255.255.255	broadcasthost"; "::1             localhost";
   "192.168.1.10  nas nas.local   # storage"; "";
   "  10.0.0.7 build nas"; "10.0.0.8"].

(** [tracert] prints nothing for a run of no hops. *)
Definition noOutputWindows : World := Sample.windows [].

(** * Properties *)

Local Open Scope list_scope.

(** ** The model on examples *)

Example TrimSpace_ascii : TrimSpace "  1  * " = "1  *".
Proof. reflexivity. Qed.

Example TrimSpace_nbsp :
  TrimSpace (bytes [194; 160; 97; 32; 226; 128; 137]%nat) = "a".
Proof. reflexivity. Qed.

Example Split_lines : Split "a
b
" (byte 10) = ["a"; "b"; ""].
Proof. reflexivity. Qed.

Example Itoa_ex : (Itoa 30, Itoa 0, Itoa (-7)) = ("30", "0", "-7").
Proof. reflexivity. Qed.

Example Atoi_ex :
  (Atoi "12", Atoi "007", Atoi "99999999999999999999", Atoi "1x")
  = (12, 7, maxInt, 0).
Proof. reflexivity. Qed.

(** The three shapes the source lists for [parseUnixLine]. *)
Example parseUnixLine_numeric :
  value (parseUnixLine " 1  192.168.1.1  3.224 ms" "192.168.1.1") initPackage
  = (mkHop 1 "192.168.1.1" "" 0x1.9cac083126e98p+1%float true true false, true).
Proof. reflexivity. Qed.

Example parseUnixLine_named :
  value (parseUnixLine " 1  host.example (1.2.3.4)  3 ms" "9.9.9.9") initPackage
  = (mkHop 1 "1.2.3.4" "host.example" 3%float true false false, true).
Proof. reflexivity. Qed.

Example parseUnixLine_timeout :
  value (parseUnixLine " 1  *" "9.9.9.9") initPackage = (timeoutHop 1, true).
Proof. reflexivity. Qed.

Example parseWindowsLine_hop :
  value (parseWindowsLine "  3    12 ms    11 ms    13 ms  93.184.216.34"
                          "93.184.216.34") initPackage
  = (mkHop 3 "93.184.216.34" "" 12%float true true false, true).
Proof. reflexivity. Qed.

Example parseWindowsLine_timeout :
  value (parseWindowsLine "  2     *        *        *     Request timed out."
                          "93.184.216.34") initPackage
  = (timeoutHop 2, true).
Proof. reflexivity. Qed.

Example ParseFloat_ex :
  (ParseFloat "10.500", ParseFloat "3", ParseFloat ".5", ParseFloat "1.2.3",
   ParseFloat ".")
  = (10.5, 3, 0.5, 0, 0)%float.
Proof. reflexivity. Qed.

(** ** The monad of package-level state *)

Lemma readOnly_ret {A : Type} (a : A) : readOnly (ret a).
Proof. intros g. reflexivity. Qed.

Lemma readOnly_load {A : Type} (var : Package -> A) : readOnly (load var).
Proof. intros g. reflexivity. Qed.

Lemma readOnly_bind {A B : Type} (m : M A) (f : A -> M B) :
  readOnly m -> (forall a, readOnly (f a)) -> readOnly (bind m f).
Proof.
  intros Hm Hf g. unfold state, bind.
  specialize (Hm g). unfold state in Hm.
  destruct (m g) as [a g'] eqn:E. simpl in Hm. subst g'.
  apply Hf.
Qed.

(** Running a read-only computation and then another is running the
    second from the same state. *)
Lemma bind_readOnly {A B : Type} (m : M A) (f : A -> M B) (g : Package) :
  readOnly m -> bind m f g = f (value m g) g.
Proof.
  intros Hm. unfold bind, value. specialize (Hm g). unfold state in Hm.
  destruct (m g) as [a g']. simpl in *. now subst.
Qed.

Lemma readOnly_if {A : Type} (b : bool) (m1 m2 : M A) :
  readOnly m1 -> readOnly m2 -> readOnly (if b then m1 else m2).
Proof. now destruct b. Qed.

Create HintDb readonly.
#[global] Hint Resolve readOnly_ret readOnly_load readOnly_if : readonly.

Ltac read_only :=
  repeat first
    [ solve [ auto with readonly ]
    | apply readOnly_ret
    | apply readOnly_load
    | apply readOnly_bind; [ | intros ? ]
    | progress cbv zeta
    | match goal with
      | |- readOnly (match ?x with _ => _ end) => destruct x
      end ].

Lemma parseUnixLine_readOnly (line destIP : string) :
  readOnly (parseUnixLine line destIP).
Proof. unfold parseUnixLine. read_only. Qed.

Lemma parseWindowsLine_readOnly (line destIP : string) :
  readOnly (parseWindowsLine line destIP).
Proof. unfold parseWindowsLine. read_only. Qed.

#[global] Hint Resolve parseUnixLine_readOnly parseWindowsLine_readOnly
  : readonly.

Lemma firstHop_readOnly (lines : list string) (destIP : string) :
  readOnly (firstHop lines destIP).
Proof.
  induction lines as [|l rest IH]; simpl; read_only.
Qed.

#[global] Hint Resolve firstHop_readOnly : readonly.

Lemma probe_readOnly (w : World) (binary dest destIP : string)
      (timeoutSecs ttl : Z) :
  readOnly (probe w binary dest destIP timeoutSecs ttl).
Proof. unfold probe. read_only. Qed.

#[global] Hint Resolve probe_readOnly : readonly.

Lemma launch_readOnly (w : World) (ctx : Context) (binary dest destIP : string)
      (timeoutSecs : Z) (n : nat) :
  forall ttl t results gotResult,
    readOnly (launch w ctx binary dest destIP timeoutSecs n ttl t
                     results gotResult).
Proof.
  induction n as [|n IH]; intros; simpl; read_only.
Qed.

#[global] Hint Resolve launch_readOnly : readonly.

Lemma scanLoop_readOnly (w : World) (ctx : Context) (destIP : string)
      (lines : list string) :
  forall t lastTTL, readOnly (scanLoop w ctx destIP lines t lastTTL).
Proof.
  induction lines as [|l rest IH]; intros; simpl; read_only.
Qed.

#[global] Hint Resolve scanLoop_readOnly : readonly.

Lemma runParallel_readOnly (w : World) (ctx : Context) (dest : string)
      (opts : Options) : readOnly (runParallel w ctx dest opts).
Proof. unfold runParallel. read_only. Qed.

Lemma runSequential_readOnly (w : World) (ctx : Context) (dest : string)
      (opts : Options) : readOnly (runSequential w ctx dest opts).
Proof. unfold runSequential. read_only. Qed.

(** ** Strings *)


Lemma sliceFrom_sliceFrom (n m : nat) (s : string) :
  sliceFrom m (sliceFrom n s) = sliceFrom (n + m) s.
Proof.
  revert s. induction n as [|n IH]; intros s; simpl; [reflexivity|].
  destruct s as [|c s]; simpl; [now destruct m|]. apply IH.
Qed.


(** ** The matcher consumes what the pattern requires *)

Section MatcherFacts.
Context {R : Type}.


End MatcherFacts.




Lemma MatchString_false (re : Regexp) (s : string) :
  FindStringSubmatch re s = None -> MatchString re s = false.
Proof.
  unfold FindStringSubmatch, MatchString.
  now destruct (search (expr re) 0 s) as [[[b e] cs]|].
Qed.

(** ** The line parsers *)

Lemma parseUnixLine_parsed (line destIP : string) (g : Package) :
  parsed (value (parseUnixLine line destIP) g).
Proof.
  unfold value, parseUnixLine, bind, load, ret. simpl.
  repeat match goal with
         | |- context [match ?x with _ => _ end] => destruct x; simpl
         end; constructor.
Qed.

Lemma parseWindowsLine_parsed (line destIP : string) (g : Package) :
  parsed (value (parseWindowsLine line destIP) g).
Proof.
  unfold value, parseWindowsLine, bind, load, ret. simpl.
  repeat match goal with
         | |- context [match ?x with _ => _ end] => destruct x; simpl
         end; constructor.
Qed.

(** C9. Parsing the same line with the same destination address twice
    in a row gives the same hop and the same ok flag both times, and the
    package-level variables, the only state a parser can reach, are left
    as they were; for both parsers. *)
Theorem parse_twice_identical (g : Package) (line destIP : string) :
  (exists r : Hop * bool,
      twice (parseUnixLine line destIP) g = ((r, r), g))
  /\ (exists r : Hop * bool,
         twice (parseWindowsLine line destIP) g = ((r, r), g)).
Proof.
  split; eexists; unfold twice.
  - rewrite !bind_readOnly by auto with readonly. reflexivity.
  - rewrite !bind_readOnly by auto with readonly. reflexivity.
Qed.

(** C7. A line that matches none of the patterns of a parser is "not a
    data line": the parser returns the zero hop with ok = false (its result
    has no error component), and the loops that read a probe's output go on
    to the next line. *)
Theorem unrecognized_line_not_data (g : Package) (line destIP : string) :
  (FindStringSubmatch (reUnixTimeout g) line = None ->
   FindStringSubmatch (reUnixHopNumeric g) line = None ->
   FindStringSubmatch (reUnixHopNamed g) line = None ->
   parseUnixLine line destIP g = ((zeroHop, false), g)
   /\ (forall (w : World) (ctx : Context) (rest : list string) (t : nat)
              (lastTTL : Z),
          GOOS w <> "windows" -> ctxErr ctx t = false ->
          scanLoop w ctx destIP (line :: rest) t lastTTL g
          = scanLoop w ctx destIP rest (S t) lastTTL g))
  /\ (FindStringSubmatch (reWinTimeout g) line = None ->
      FindStringSubmatch (reWinHop g) line = None ->
      parseWindowsLine line destIP g = ((zeroHop, false), g)
      /\ (forall (w : World) (ctx : Context) (rest : list string) (t : nat)
                 (lastTTL : Z),
             GOOS w = "windows" -> ctxErr ctx t = false ->
             scanLoop w ctx destIP (line :: rest) t lastTTL g
             = scanLoop w ctx destIP rest (S t) lastTTL g)).
Proof.
  split.
  - intros HT HN HH.
    assert (P : parseUnixLine line destIP g = ((zeroHop, false), g)).
    { unfold parseUnixLine, bind, load, ret. simpl. now rewrite HT, HN, HH. }
    split; [exact P|].
    intros w ctx rest t lastTTL Hos Hctx. simpl. rewrite Hctx.
    apply String.eqb_neq in Hos. rewrite Hos.
    destruct (_ || _ || _); [reflexivity|].
    unfold bind at 1. now rewrite P.
  - intros HT HH.
    assert (P : parseWindowsLine line destIP g = ((zeroHop, false), g)).
    { unfold parseWindowsLine, bind, load, ret. simpl.
      now rewrite (MatchString_false _ _ HT), HH. }
    split; [exact P|].
    intros w ctx rest t lastTTL Hos Hctx. simpl. rewrite Hctx.
    apply String.eqb_eq in Hos. rewrite Hos.
    destruct (_ || _ || _); [reflexivity|].
    unfold bind at 1. now rewrite P.
Qed.

Lemma unrecognized_line_not_data_witness :
  parseUnixLine "traceroute: Warning: example.com has multiple addresses"
                "93.184.216.34" initPackage
  = ((zeroHop, false), initPackage)
  /\ parseWindowsLine "Trace complete." "93.184.216.34" initPackage
     = ((zeroHop, false), initPackage).
Proof.
  split.
  - destruct (unrecognized_line_not_data initPackage
                "traceroute: Warning: example.com has multiple addresses"
                "93.184.216.34") as [U _].
    apply U; reflexivity.
  - destruct (unrecognized_line_not_data initPackage "Trace complete."
                "93.184.216.34") as [_ W].
    apply W; reflexivity.
Defined.

(** ** The Windows patterns exclude each other *)

Section Firsts.
Context {R : Type}.


Lemma needs_class (p : ascii -> bool) (k : @cont R) :
  needs p (fun pos s cs => run (Class p) pos s cs k).
Proof.
  intros pos s cs res H. simpl in H.
  destruct s as [|c s]; [discriminate|].
  destruct (p c) eqn:E; [|discriminate]. eauto.
Qed.

End Firsts.




(** A line with an asterisk where the address is expected matches no
    hop pattern, whatever follows: it is a timeout. *)
Example asterisk_before_address_unix :
  value (parseUnixLine " 1  * 1.2.3.4  3 ms" "1.2.3.4") initPackage
  = (timeoutHop 1, true).
Proof. reflexivity. Qed.

Example asterisk_before_address_windows :
  value (parseWindowsLine "  3     *       11 ms    13 ms  10.0.0.1"
                          "10.0.0.1") initPackage
  = (timeoutHop 3, true).
Proof. reflexivity. Qed.

(** ** The launch loop *)

Lemma launchedCount_never (ctx : Context) (n : nat) :
  cancelledAt ctx = None -> forall t, launchedCount ctx t n = n.
Proof.
  intros H. induction n as [|n IH]; intros t; simpl; [reflexivity|].
  unfold ctxErr. rewrite H. now rewrite IH.
Qed.

Lemma launch_value (w : World) (ctx : Context) (g : Package)
      (binary dest destIP : string) (timeoutSecs : Z) (n : nat) :
  forall (i t : nat) (pre : list Hop) (gpre : list bool),
    List.length pre = i -> List.length gpre = i ->
    let k := launchedCount ctx t n in
    value (launch w ctx binary dest destIP timeoutSecs n (Z.of_nat i + 1) t
                  (pre ++ repeat zeroHop n) (gpre ++ repeat false n)) g
    = (pre ++ probes w g binary dest destIP timeoutSecs i k
           ++ repeat zeroHop (n - k),
       gpre ++ repeat true k ++ repeat false (n - k),
       probeCommands binary dest timeoutSecs i k,
       (t + k)%nat).
Proof.
  induction n as [|n IH]; intros i t pre gpre Hp Hg; simpl.
  - unfold value, ret. simpl. now rewrite Nat.add_0_r.
  - destruct (ctxErr ctx t) eqn:E.
    + unfold value, ret. simpl. now rewrite Nat.add_0_r.
    + unfold value. rewrite bind_readOnly by auto with readonly.
      rewrite bind_readOnly by auto with readonly.
      replace (Z.to_nat (Z.of_nat i + 1 - 1)) with i by lia.
      rewrite (insert_app_r_alt pre), (insert_app_r_alt gpre) by lia.
      rewrite Hp, Hg, Nat.sub_diag. simpl.
      specialize (IH (S i) (S t) (pre ++ [value (probe w binary dest destIP
                                                 timeoutSecs (Z.of_nat i + 1)) g])
                     (gpre ++ [true])).
      rewrite !length_app, Hp, Hg in IH. simpl in IH.
      rewrite <- !app_assoc in IH. simpl in IH.
      replace (Z.of_nat (S i) + 1) with (Z.of_nat i + 1 + 1) in IH by lia.
      rewrite IH by lia. simpl.
      unfold probes, probeCommands. simpl.
      replace (Z.of_nat i + 1) with (Z.of_nat (S i)) by lia.
      rewrite Nat.add_succ_r. reflexivity.
Qed.

Lemma filled_launched (hs : list Hop) (k m : nat) :
  List.length hs = k ->
  filled (combine (hs ++ repeat zeroHop m) (repeat true k ++ repeat false m))
  = hs.
Proof.
  revert k. induction hs as [|h hs IH]; intros k Hk; simpl in Hk; subst k.
  - simpl. induction m as [|m IHm]; simpl; [reflexivity|exact IHm].
  - simpl. unfold filled in *. simpl. f_equal. now apply IH.
Qed.

Lemma findTrueFinal_filled (d : gset string) (slots : list (Hop * bool)) :
  findTrueFinal d slots = findTrueFinal d (tag (filled slots)).
Proof.
  induction slots as [|[h got] slots IH]; simpl; [reflexivity|].
  destruct got; simpl; [|exact IH].
  unfold filled in *. simpl. now rewrite IH.
Qed.

Lemma stream_filled (ctx : Context) (T : Z) (slots : list (Hop * bool)) :
  forall t, stream ctx T slots t = stream ctx T (tag (filled slots)) t.
Proof.
  induction slots as [|[h got] slots IH]; intros t; simpl; [reflexivity|].
  destruct got; simpl; [|apply IH].
  unfold filled in *. simpl. now rewrite IH.
Qed.

Lemma length_probes w g binary dest destIP timeoutSecs i k :
  List.length (probes w g binary dest destIP timeoutSecs i k) = k.
Proof. unfold probes. now rewrite List.length_map, length_seq. Qed.

(** A run that got to probing: what it collected, and its reconciliation
    of it. *)
Lemma runParallel_value (w : World) (ctx : Context) (dest : string)
      (opts : Options) (g : Package) (binary : string) :
  tracerouteBinary w = inr binary -> 0 <= MaxHops opts ->
  let n := Z.to_nat (MaxHops opts) in
  let k := launchedCount ctx 0 n in
  let hs := probes w g binary dest (resolveIP w 1 dest) (timeoutSecsOf opts) 0 k in
  let T := findTrueFinal (resolveIPs w 0 dest) (tag hs) in
  let '(sent, done, t') := stream ctx T (tag hs) k in
  value (runParallel w ctx dest opts) g
  = mkResult (probeCommands binary dest (timeoutSecsOf opts) 0 k) hs sent
             (parallelOutcome ctx done t' T) t'.
Proof.
  intros Hb Hm n k hs T.
  unfold value, runParallel. rewrite Hb.
  destruct (MaxHops opts <? 0) eqn:E; [lia|].
  rewrite bind_readOnly by auto with readonly.
  pose proof (launch_value w ctx g binary dest (resolveIP w 1 dest)
                           (timeoutSecsOf opts) n 0 0 [] [] eq_refl eq_refl) as L.
  cbv zeta in L. change (Z.of_nat 0 + 1) with 1 in L. simpl app in L.
  fold n. rewrite L. fold k. fold hs.
  rewrite (findTrueFinal_filled _ (combine _ _)).
  rewrite (stream_filled _ _ (combine _ _)).
  rewrite filled_launched by apply length_probes.
  fold T. change (0 + k)%nat with k.
  destruct (stream ctx T (tag hs) k) as [[sent done] t'].
  unfold parallelOutcome.
  destruct done; simpl; [reflexivity|].
  destruct (ctxErr ctx t'); simpl; [reflexivity|].
  destruct (T =? 0); reflexivity.
Qed.

(** ** Reconciliation *)


Lemma selectDone_never (ctx : Context) (t : nat) :
  cancelledAt ctx = None -> selectDone ctx t = false.
Proof. intros H. unfold selectDone, ctxErr. now rewrite H. Qed.

Lemma ctxErr_never (ctx : Context) (t : nat) :
  cancelledAt ctx = None -> ctxErr ctx t = false.
Proof. intros H. unfold ctxErr. now rewrite H. Qed.



Lemma findTrueFinal_none (d : gset string) (hs : list Hop) :
  Forall (fun h => looksFinal d h = false) hs ->
  findTrueFinal d (tag hs) = 0.
Proof.
  induction 1 as [|h hs Hh _ IH]; simpl; [reflexivity|]. now rewrite Hh.
Qed.

Lemma findTrueFinal_inv (d : gset string) (hs : list Hop) :
  findTrueFinal d (tag hs) <> 0 ->
  exists (k : nat) (hk : Hop),
    hs !! k = Some hk /\ looksFinal d hk = true
    /\ TTL hk = findTrueFinal d (tag hs).
Proof.
  induction hs as [|h hs IH]; simpl; intros H; [congruence|].
  destruct (looksFinal d h) eqn:E.
  - exists 0%nat, h. auto.
  - destruct (IH H) as (k & hk & Hk & Hf & Ht). exists (S k), hk. auto.
Qed.

Lemma stream_until (ctx : Context) (T : Z) :
  cancelledAt ctx = None -> 0 < T ->
  forall (hs : list Hop) (k : nat) (hk : Hop) (t : nat),
    hs !! k = Some hk -> TTL hk = T ->
    Forall (fun h => TTL h <> T) (take k hs) ->
    stream ctx T (tag hs) t
    = (List.map cleared (take k hs) ++ [marked hk], false, (t + S k)%nat).
Proof.
  intros Hc HT. induction hs as [|h hs IH]; intros k hk t Hk Hhk Hlow;
    [discriminate|].
  destruct k as [|k]; simpl in *; rewrite (selectDone_never ctx t Hc).
  - injection Hk as ->.
    assert (E : (0 <? T) && (TTL hk =? T) = true)
      by (apply andb_true_iff; split; [apply Z.ltb_lt | apply Z.eqb_eq]; auto).
    rewrite E. simpl. now rewrite Nat.add_1_r.
  - apply Forall_cons in Hlow as [Hh Hlow].
    apply Z.eqb_neq in Hh. rewrite Hh, andb_false_r. simpl.
    rewrite (IH k hk (S t) Hk Hhk Hlow).
    replace (t + S (S k))%nat with (S t + S k)%nat by lia. reflexivity.
Qed.

Lemma stream_all (ctx : Context) (T : Z) :
  cancelledAt ctx = None ->
  forall (hs : list Hop) (t : nat),
    Forall (fun h => (0 <? T) && (TTL h =? T) = false) hs ->
    stream ctx T (tag hs) t
    = (List.map cleared hs, false, (t + List.length hs)%nat).
Proof.
  intros Hc. induction hs as [|h hs IH]; intros t H; simpl.
  - now rewrite Nat.add_0_r.
  - apply Forall_cons in H as [Hh H].
    rewrite (selectDone_never ctx t Hc), Hh. simpl.
    rewrite (IH (S t) H).
    replace (t + S (List.length hs))%nat with (S t + List.length hs)%nat by lia.
    reflexivity.
Qed.

(** Whatever the context does, what is sent is a prefix of the
    collected hops with their flags corrected, and a hop marked final
    ends it. *)
Lemma stream_sent (ctx : Context) (T : Z) (hs : list Hop) :
  forall (t : nat) (sent : list Hop) (done : bool) (t' : nat),
    stream ctx T (tag hs) t = (sent, done, t') ->
    (forall (i : nat) (h : Hop),
        sent !! i = Some h ->
        exists h0 : Hop,
          hs !! i = Some h0
          /\ h = withIsFinal h0 ((0 <? T) && (TTL h0 =? T)))
    /\ (forall (i : nat) (h : Hop),
           sent !! i = Some h -> IsFinal h = true -> S i = List.length sent).
Proof.
  induction hs as [|h0 hs IH]; intros t sent done t' H; simpl in H.
  - injection H as <- _ _. split; intros i h Hi; discriminate.
  - destruct (selectDone ctx t).
    { injection H as <- _ _. split; intros i h Hi; discriminate. }
    destruct ((0 <? T) && (TTL h0 =? T)) eqn:E; simpl in H.
    + injection H as <- _ _. split; intros [|i] h Hi; try discriminate.
      * injection Hi as <-. exists h0. now rewrite E.
      * reflexivity.
    + destruct (stream ctx T (tag hs) (S t)) as [[sent' done'] t''] eqn:S.
      injection H as <- _ _. destruct (IH _ _ _ _ S) as [IH1 IH2].
      split; intros [|i] h Hi; simpl in *.
      * injection Hi as <-. exists h0. now rewrite E.
      * now apply IH1.
      * injection Hi as <-. simpl. discriminate.
      * intros Hf. f_equal. now apply (IH2 i h).
Qed.

(** The two ways a call of [runParallel] goes: it returns before any
    probe is started, or it collects and reconciles. *)
Lemma runParallel_cases (w : World) (ctx : Context) (dest : string)
      (opts : Options) (g : Package) :
  let r := value (runParallel w ctx dest opts) g in
  let T := findTrueFinal (resolveIPs w 0 dest) (tag (collected r)) in
  (collected r = [] /\ emitted r = [])
  \/ (exists (binary : string) (done : bool),
         tracerouteBinary w = inr binary /\ 0 <= MaxHops opts
         /\ collected r
            = probes w g binary dest (resolveIP w 1 dest) (timeoutSecsOf opts)
                     0 (launchedCount ctx 0 (Z.to_nat (MaxHops opts)))
         /\ stream ctx T (tag (collected r)) (List.length (collected r))
            = (emitted r, done, clock r)
         /\ outcome r = parallelOutcome ctx done (clock r) T).
Proof.
  destruct (tracerouteBinary w) as [e|binary] eqn:Hb.
  { left. unfold value, runParallel. rewrite Hb. auto. }
  destruct (MaxHops opts <? 0) eqn:Hm.
  { left. unfold value, runParallel. rewrite Hb, Hm. auto. }
  right. apply Z.ltb_ge in Hm.
  pose proof (runParallel_value w ctx dest opts g binary Hb Hm) as V.
  cbv zeta in V.
  destruct (stream _ _ _ _) as [[sent done] t'] eqn:S in V.
  cbv zeta. rewrite V. simpl.
  exists binary, done. rewrite length_probes. auto.
Qed.

(** ** What a probe stores *)

Lemma firstHop_parsed (lines : list string) (destIP : string) (g : Package) :
  exists ok : bool, parsed (value (firstHop lines destIP) g, ok).
Proof.
  induction lines as [|l rest IH]; simpl.
  - exists false. constructor.
  - destruct (_ || _); [exact IH|].
    unfold value at 1. rewrite bind_readOnly by auto with readonly.
    pose proof (parseUnixLine_parsed (TrimSpace l) destIP g) as P.
    destruct (value (parseUnixLine (TrimSpace l) destIP) g) as [h ok].
    destruct ok; simpl; [|exact IH].
    exists true. exact P.
Qed.




Lemma probe_TTL (w : World) (g : Package) (binary dest destIP : string)
      (timeoutSecs ttl : Z) :
  ttl <> 0 -> TTL (value (probe w binary dest destIP timeoutSecs ttl) g) <> 0.
Proof.
  intros H. unfold value, probe. rewrite bind_readOnly by auto with readonly.
  generalize (value (firstHop (Split (Output w binary (probeArgs dest timeoutSecs ttl)) newline) destIP) g).
  intros h. simpl.
  destruct (TTL h =? 0) eqn:E; simpl; [exact H|].
  apply Z.eqb_neq in E.
  destruct (Success h && String.eqb (Hostname h) "" && negb (String.eqb (IP h) ""));
    [|exact E].
  destruct (LookupAddr w ttl (IP h)) as [[|name names]|]; exact E.
Qed.

Lemma probes_TTL (w : World) (g : Package) (binary dest destIP : string)
      (timeoutSecs : Z) (i k : nat) :
  Forall (fun h => TTL h <> 0) (probes w g binary dest destIP timeoutSecs i k).
Proof.
  unfold probes. apply List.Forall_forall. intros h Hh.
  apply in_map_iff in Hh as (j & <- & _). apply probe_TTL. lia.
Qed.

Lemma stream_never_done (ctx : Context) (T : Z) (slots : list (Hop * bool)) :
  cancelledAt ctx = None ->
  forall t, snd (fst (stream ctx T slots t)) = false.
Proof.
  intros Hc. induction slots as [|[h got] slots IH]; intros t; simpl;
    [reflexivity|].
  destruct got; simpl; [|apply IH].
  rewrite (selectDone_never ctx t Hc).
  destruct (_ && _); simpl; [reflexivity|].
  specialize (IH (S t)). destruct (stream ctx T slots (S t)) as [[sent done] t'].
  exact IH.
Qed.

(** ** The parallel strategy *)


Ltac compute_list l :=
  let l' := eval vm_compute in l in change l with l'.









(** ** The entry point *)

Lemma Run_windows (w : World) (ctx : Context) (dest : string)
      (opts : Options) :
  GOOS w = "windows" ->
  Run w ctx dest (Some opts) = runSequential w ctx dest opts.
Proof. intros H. unfold Run. simpl. now rewrite H. Qed.

Lemma Run_unix (w : World) (ctx : Context) (dest : string) (opts : Options) :
  GOOS w <> "windows" ->
  Run w ctx dest (Some opts) = runParallel w ctx dest opts.
Proof.
  intros H. unfold Run. simpl. apply String.eqb_neq in H. now rewrite H.
Qed.

Lemma Run_nil_options (w : World) (ctx : Context) (dest : string) :
  Run w ctx dest None = Run w ctx dest (Some DefaultOptions).
Proof. reflexivity. Qed.

(** ** Cancellation *)

(** The parallel strategy looks at the context once more before it
    classifies the run: cancelled by then, the run returns nil. *)
Lemma runParallel_cancelled_returns_nil
      (w : World) (ctx : Context) (dest : string) (opts : Options)
      (g : Package) (binary : string) :
  let r := value (runParallel w ctx dest opts) g in
  tracerouteBinary w = inr binary -> 0 <= MaxHops opts ->
  ctxErr ctx (clock r) = true ->
  outcome r = Returns None.
Proof.
  intros r Hb Hm. unfold r.
  pose proof (runParallel_value w ctx dest opts g binary Hb Hm) as V.
  cbv zeta in V. destruct (stream _ _ _ _) as [[sent done] t'] in V.
  rewrite V. simpl. intros Hc. unfold parallelOutcome.
  now rewrite Hc, orb_true_r.
Qed.

(** C4. The sequential strategy does not look at the context after its
    loop: with [MaxHops = 1], one line read that is the timeout of hop 1,
    and the context cancelled before the output ends, [Run] returns
    [ErrMaxHopsReached] although the run was cancelled. *)
Theorem sequential_cancel_reports_max_hops :
  let r := value (Run oneHopWindows cancelledAfterFirstLine "example.com"
                      (Some (mkOptions 1 3000))) initPackage in
  ctxErr cancelledAfterFirstLine (clock r) = true
  /\ emitted r = [timeoutHop 1]
  /\ outcome r = Returns (Some ErrMaxHopsReached).
Proof. vm_compute. repeat split. Qed.

(** ** The per-hop wait *)

Lemma Itoa_not_flag (n : Z) (c : ascii) :
  isDigit c = false -> String.eqb (Itoa n) (String "-" (String c "")) = false.
Proof.
  intros Hc. apply String.eqb_neq. unfold Itoa.
  destruct (Z.to_int n) as [d|d]; simpl.
  - destruct d; simpl; discriminate.
  - destruct d; simpl; intros H; inversion H; subst; discriminate Hc.
Qed.

Lemma flagValue_probeArgs (dest : string) (timeoutSecs ttl : Z) :
  flagValue "-w" (probeArgs dest timeoutSecs ttl) = Some (Itoa timeoutSecs).
Proof.
  unfold probeArgs. simpl.
  rewrite (Itoa_not_flag ttl "w") by reflexivity. reflexivity.
Qed.

Lemma timeoutSecsOf_max (opts : Options) :
  0 < TimeoutMs opts ->
  timeoutSecsOf opts = Z.max 1 (TimeoutMs opts / 1000).
Proof.
  intros H. unfold timeoutSecsOf.
  rewrite Z.quot_div_nonneg by lia.
  destruct (TimeoutMs opts / 1000 <? 1) eqn:E; lia.
Qed.

Lemma runParallel_commands (w : World) (ctx : Context) (dest : string)
      (opts : Options) (g : Package) (cmd : string * list string) :
  In cmd (commands (value (runParallel w ctx dest opts) g)) ->
  exists ttl : Z, snd cmd = probeArgs dest (timeoutSecsOf opts) ttl.
Proof.
  destruct (tracerouteBinary w) as [e|binary] eqn:Hb.
  { unfold value, runParallel. rewrite Hb. intros []. }
  destruct (MaxHops opts <? 0) eqn:Hm.
  { unfold value, runParallel. rewrite Hb, Hm. intros []. }
  apply Z.ltb_ge in Hm.
  pose proof (runParallel_value w ctx dest opts g binary Hb Hm) as V.
  cbv zeta in V. destruct (stream _ _ _ _) as [[sent done] t'] in V.
  rewrite V. simpl. unfold probeCommands. intros H.
  apply in_map_iff in H as (j & <- & _). eexists. reflexivity.
Qed.

Lemma runSequential_commands (w : World) (ctx : Context) (dest : string)
      (opts : Options) (g : Package) (cmd : string * list string) :
  In cmd (commands (value (runSequential w ctx dest opts) g)) ->
  sequentialCommand w dest opts = inr cmd.
Proof.
  unfold value, runSequential.
  destruct (sequentialCommand w dest opts) as [e|[binary args]]; [intros []|].
  destruct (Start w binary args) as [msg|lines].
  { simpl. intros [<-|[]]. reflexivity. }
  rewrite bind_readOnly by auto with readonly.
  destruct (value (scanLoop _ _ _ _ _ _) g) as [[[sent last] exit] t].
  destruct exit; [| |destruct (MaxHops opts <=? last)]; simpl;
    intros [<-|[]]; reflexivity.
Qed.

(** C6, as the code has it.  For every [Options] with a positive
    [TimeoutMs], the wait passed with [-w] to every command a run executes
    is [max 1 (TimeoutMs / 1000)] seconds, hence at least 1 second, in the
    parallel strategy and in the sequential strategy off Windows; on
    Windows it is [TimeoutMs] itself, which [tracert] reads as
    milliseconds, unclamped. *)
Theorem per_hop_wait_argument
        (w : World) (ctx : Context) (dest : string) (opts : Options)
        (g : Package) (cmd : string * list string) :
  0 < TimeoutMs opts ->
  1 <= Z.max 1 (TimeoutMs opts / 1000)
  /\ (In cmd (commands (value (runParallel w ctx dest opts) g)) ->
      flagValue "-w" (snd cmd)
      = Some (Itoa (Z.max 1 (TimeoutMs opts / 1000))))
  /\ (In cmd (commands (value (runSequential w ctx dest opts) g)) ->
      flagValue "-w" (snd cmd)
      = Some (Itoa (if String.eqb (GOOS w) "windows" then TimeoutMs opts
                    else Z.max 1 (TimeoutMs opts / 1000))))
  /\ (In cmd (commands (value (Run w ctx dest (Some opts)) g)) ->
      flagValue "-w" (snd cmd)
      = Some (Itoa (if String.eqb (GOOS w) "windows" then TimeoutMs opts
                    else Z.max 1 (TimeoutMs opts / 1000)))).
Proof.
  intros Hpos.
  assert (P : In cmd (commands (value (runParallel w ctx dest opts) g)) ->
              flagValue "-w" (snd cmd)
              = Some (Itoa (Z.max 1 (TimeoutMs opts / 1000)))).
  { intros H. apply runParallel_commands in H as [ttl ->].
    now rewrite flagValue_probeArgs, timeoutSecsOf_max. }
  assert (S : In cmd (commands (value (runSequential w ctx dest opts) g)) ->
              flagValue "-w" (snd cmd)
              = Some (Itoa (if String.eqb (GOOS w) "windows"
                            then TimeoutMs opts
                            else Z.max 1 (TimeoutMs opts / 1000)))).
  { intros H. apply runSequential_commands in H.
    unfold sequentialCommand in H.
    destruct (String.eqb (GOOS w) "windows").
    - injection H as <-. simpl.
      now rewrite (Itoa_not_flag (MaxHops opts) "w").
    - destruct (tracerouteBinary w) as [e|b]; [discriminate|].
      injection H as <-. simpl.
      rewrite (Itoa_not_flag (MaxHops opts) "w") by reflexivity.
      now rewrite timeoutSecsOf_max. }
  split; [lia|]. split; [exact P|]. split; [exact S|].
  unfold Run. simpl.
  destruct (String.eqb (GOOS w) "windows") eqn:E.
  - exact S.
  - exact P.
Qed.

Lemma per_hop_wait_argument_witness :
  flagValue "-w" ["-f"; "1"; "-m"; "1"; "-q"; "1"; "-w"; "1"; "-n"; "192.0.2.1"]
  = Some "1"
  /\ flagValue "-w" ["-h"; "30"; "-w"; "500"; "example.com"] = Some "500".
Proof.
  split.
  - destruct (per_hop_wait_argument Sample.silent Sample.never "192.0.2.1"
                (mkOptions 3 500) initPackage
                ("/usr/sbin/traceroute",
                 ["-f"; "1"; "-m"; "1"; "-q"; "1"; "-w"; "1"; "-n"; "192.0.2.1"])
                eq_refl) as (_ & _ & _ & R).
    apply R. vm_compute. auto.
  - destruct (per_hop_wait_argument oneHopWindows Sample.never "example.com"
                (mkOptions 30 500) initPackage
                ("tracert", ["-h"; "30"; "-w"; "500"; "example.com"])
                eq_refl) as (_ & _ & _ & R).
    apply R. vm_compute. auto.
Defined.

(** C6, as the claim states it, fails: on Windows with [TimeoutMs = 500]
    the command executed asks for a per-hop wait of 500 milliseconds. *)
Lemma windows_wait_below_one_second :
  ~ (forall (w : World) (ctx : Context) (dest : string) (opts : Options)
            (g : Package) (cmd : string * list string),
        0 < TimeoutMs opts ->
        In cmd (commands (value (Run w ctx dest (Some opts)) g)) ->
        exists ms : Z, perHopWaitMs cmd = Some ms /\ 1000 <= ms).
Proof.
  intros H.
  destruct (H oneHopWindows Sample.never "example.com" (mkOptions 30 500)
              initPackage
              ("tracert", ["-h"; "30"; "-w"; "500"; "example.com"]))
    as (ms & Hms & Hle).
  - simpl. lia.
  - vm_compute. auto.
  - vm_compute in Hms. injection Hms as <-. lia.
Qed.

(** ** The destination resolver *)

Lemma resolve_fold (w : World) (addrs : list string) :
  forall (acc : gset string) (a : string),
    a ∈ fold_left
          (fun (set : gset string) (a : string) =>
             match ParseIP w a with
             | Some ip =>
                 match To4 w ip with
                 | Some _ => {[ a ]} ∪ set
                 | None => set
                 end
             | None => set
             end)
          addrs acc
    <-> a ∈ acc \/ (In a addrs /\ isIPv4 w a).
Proof.
  induction addrs as [|b addrs IH]; intros acc a; simpl.
  - tauto.
  - rewrite IH. unfold isIPv4.
    destruct (ParseIP w b) as [ip|] eqn:P;
      [destruct (To4 w ip) as [ip4|] eqn:F|].
    + rewrite elem_of_union, elem_of_singleton. split.
      * intros [[->|H]|[H1 H2]]; eauto 10.
      * intros [H|[[->|H1] H2]]; auto.
    + split.
      * intros [H|[H1 H2]]; auto.
      * intros [H|[[->|H1] H2]]; auto.
        destruct H2 as (ip' & ip4 & P' & F'). congruence.
    + split.
      * intros [H|[H1 H2]]; auto.
      * intros [H|[[->|H1] H2]]; auto.
        destruct H2 as (ip' & ip4 & P' & F'). congruence.
Qed.

Lemma parseUnixLine_IsFinal (line destIP : string) (g : Package) :
  let h := fst (value (parseUnixLine line destIP) g) in
  IsFinal h
  = Success h && (negb (String.eqb destIP "") && String.eqb (IP h) destIP).
Proof.
  unfold value, parseUnixLine, bind, load, ret. simpl.
  repeat match goal with
         | |- context [match ?x with _ => _ end] => destruct x; simpl
         end; reflexivity.
Qed.

Lemma firstHop_IsFinal (lines : list string) (destIP : string) (g : Package) :
  let h := value (firstHop lines destIP) g in
  IsFinal h
  = Success h && (negb (String.eqb destIP "") && String.eqb (IP h) destIP).
Proof.
  induction lines as [|l rest IH]; simpl; [reflexivity|].
  destruct (_ || _); [exact IH|].
  unfold value at 1 2 3. rewrite bind_readOnly by auto with readonly.
  pose proof (parseUnixLine_IsFinal (TrimSpace l) destIP g) as P.
  destruct (value (parseUnixLine (TrimSpace l) destIP) g) as [h ok].
  destruct ok; simpl; [exact P|exact IH].
Qed.

Lemma probe_IsFinal (w : World) (g : Package) (binary dest destIP : string)
      (timeoutSecs ttl : Z) :
  let h := value (probe w binary dest destIP timeoutSecs ttl) g in
  IsFinal h
  = Success h && (negb (String.eqb destIP "") && String.eqb (IP h) destIP).
Proof.
  unfold value, probe. rewrite bind_readOnly by auto with readonly.
  pose proof (firstHop_IsFinal
                (Split (Output w binary (probeArgs dest timeoutSecs ttl)) newline)
                destIP g) as P.
  cbv zeta in P.
  destruct (value (firstHop _ destIP) g) as [ttl0 ip hostname rtt ok fin tmo].
  simpl in *.
  destruct (ttl0 =? 0); simpl; [reflexivity|].
  destruct (ok && String.eqb hostname "" && negb (String.eqb ip "")); simpl;
    [|exact P].
  destruct (LookupAddr w ttl ip) as [[|name names]|]; simpl; exact P.
Qed.

(** C8. The resolver returns a set and nothing else, so it cannot fail
    the run.  A literal IP address gives the set of just that address; a
    name gives the set of exactly the addresses the lookup returned that are
    IPv4; a failed lookup gives the empty set, and the display address is
    then the destination as typed.  When the set is empty, the test for the
    true final hop holds of a collected hop exactly when the hop succeeded
    and its address is, letter for letter, the non-empty display
    address. *)
Theorem resolver_contract (w : World) (call : nat) (host : string) :
  (forall ip : netIP,
      ParseIP w host = Some ip ->
      resolveIPs w call host = {[ IPString w ip ]})
  /\ (forall addrs : list string,
         ParseIP w host = None -> LookupHost w call host = Some addrs ->
         forall a : string,
           a ∈ resolveIPs w call host <-> In a addrs /\ isIPv4 w a)
  /\ (ParseIP w host = None -> LookupHost w call host = None ->
      resolveIPs w call host = ∅ /\ resolveIP w call host = host)
  /\ (forall (ctx : Context) (opts : Options) (g : Package),
         resolveIPs w 0 host = ∅ ->
         Forall
           (fun h =>
              looksFinal (resolveIPs w 0 host) h
              = Success h
                && (negb (String.eqb (resolveIP w 1 host) "")
                    && String.eqb (IP h) (resolveIP w 1 host)))
           (collected (value (runParallel w ctx host opts) g))).
Proof.
  split; [|split; [|split]].
  - intros ip P. unfold resolveIPs. now rewrite P.
  - intros addrs P L a. unfold resolveIPs. rewrite P, L, resolve_fold.
    split; [|now right].
    intros [E|E]; [|exact E]. now apply not_elem_of_empty in E.
  - intros P L. unfold resolveIP, resolveIPs. rewrite P, L.
    now rewrite elements_empty.
  - intros ctx opts g E.
    destruct (runParallel_cases w ctx host opts g)
      as [[C _]|(binary & done & _ & _ & C & _)]; rewrite C;
      [constructor|].
    apply Forall_forall. intros h Hh. unfold probes in Hh.
    apply list_elem_of_In, in_map_iff in Hh as (j & <- & _).
    unfold looksFinal. rewrite E, probe_IsFinal. simpl.
    rewrite orb_false_r.
    now destruct (Success _).
Qed.

Lemma resolver_contract_witness :
  resolveIPs Sample.scenario 0 "93.184.216.34" = {[ "93.184.216.34" ]}
  /\ (forall a : string,
         a ∈ resolveIPs Sample.scenario 0 "example.com"
         <-> In a ["93.184.216.34"] /\ isIPv4 Sample.scenario a)
  /\ (resolveIPs Sample.unresolved 0 "unknown.invalid" = ∅
      /\ resolveIP Sample.unresolved 0 "unknown.invalid" = "unknown.invalid")
  /\ Forall
       (fun h =>
          looksFinal (resolveIPs Sample.unresolved 0 "unknown.invalid") h
          = Success h
            && (negb (String.eqb (resolveIP Sample.unresolved 1 "unknown.invalid") "")
                && String.eqb (IP h)
                     (resolveIP Sample.unresolved 1 "unknown.invalid")))
       (collected (value (runParallel Sample.unresolved Sample.never
                                      "unknown.invalid" (mkOptions 2 3000))
                         initPackage)).
Proof.
  split; [|split; [|split]].
  - destruct (resolver_contract Sample.scenario 0 "93.184.216.34") as [A _].
    exact (A (Sample.v4InV6Prefix ++ [93; 184; 216; 34])%N eq_refl).
  - destruct (resolver_contract Sample.scenario 0 "example.com")
      as (_ & B & _).
    exact (B ["93.184.216.34"] eq_refl eq_refl).
  - destruct (resolver_contract Sample.unresolved 0 "unknown.invalid")
      as (_ & _ & C & _).
    exact (C eq_refl eq_refl).
  - destruct (resolver_contract Sample.unresolved 0 "unknown.invalid")
      as (_ & _ & _ & D).
    apply D. vm_compute. reflexivity.
Defined.

(** ** The sequential strategy *)

Lemma value_bind {A B : Type} (m : M A) (f : A -> M B) (g : Package) :
  readOnly m -> value (bind m f) g = value (f (value m g)) g.
Proof. intros H. unfold value at 1 2. now rewrite bind_readOnly. Qed.

(** The highest TTL seen is the initial one or the TTL of a hop sent, and
    a loop left at the end of the output sent no final hop. *)
Lemma scanLoop_facts (w : World) (ctx : Context) (destIP : string)
      (g : Package) (lines : list string) :
  forall (t : nat) (lastTTL : Z) (sent : list Hop) (last : Z)
         (exit : loopExit) (t' : nat),
    value (scanLoop w ctx destIP lines t lastTTL) g = (sent, last, exit, t') ->
    (last = lastTTL \/ exists h : Hop, In h sent /\ TTL h = last)
    /\ (exit = EndOfOutput -> Forall (fun h => IsFinal h = false) sent).
Proof.
  induction lines as [|line rest IH]; intros t lastTTL sent last exit t' H;
    simpl in H.
  - injection H as <- <- <- <-. split; [now left | constructor].
  - destruct (ctxErr ctx t).
    { injection H as <- <- <- <-. split; [now left | discriminate]. }
    destruct (_ || _ || _); [exact (IH _ _ _ _ _ _ H)|].
    rewrite value_bind in H
      by (destruct (String.eqb (GOOS w) "windows"); auto with readonly).
    destruct (value (if String.eqb (GOOS w) "windows"
                     then parseWindowsLine line destIP
                     else parseUnixLine line destIP) g) as [hop ok].
    destruct ok; simpl in H; [|exact (IH _ _ _ _ _ _ H)].
    destruct (IsFinal hop) eqn:F.
    { injection H as <- <- <- <-. split; [|discriminate].
      destruct (lastTTL <? TTL hop); [right; exists hop; simpl; auto | now left]. }
    rewrite value_bind in H by auto with readonly.
    destruct (value (scanLoop w ctx destIP rest (S t) _) g)
      as [[[sent' last'] exit'] t''] eqn:S.
    injection H as <- <- <- <-.
    destruct (IH _ _ _ _ _ _ S) as [[IH1|(h & Hin & Hh)] IH2]; split.
    + destruct (lastTTL <? TTL hop);
        [right; exists hop; simpl; auto | now left].
    + intros E. constructor; auto.
    + right. exists h. simpl. auto.
    + intros E. constructor; auto.
Qed.

(** C10. Once the process is started, if every hop sent has a TTL below
    [MaxHops] and none is final (the output ended early, or the rest of it
    did not parse), [runSequential] returns nil; and it returns nil as well
    when a final hop was sent.  The returned value is the same in both
    cases. *)
Theorem early_end_returns_nil
        (w : World) (ctx : Context) (dest : string) (opts : Options)
        (g : Package) (binary : string) (args lines : list string) :
  let r := value (runSequential w ctx dest opts) g in
  sequentialCommand w dest opts = inr (binary, args) ->
  Start w binary args = inr lines ->
  (0 < MaxHops opts ->
   Forall (fun h => IsFinal h = false /\ TTL h < MaxHops opts) (emitted r) ->
   outcome r = Returns None)
  /\ (Exists (fun h => IsFinal h = true) (emitted r) ->
      outcome r = Returns None).
Proof.
  intros r Hc Hs. unfold r, runSequential. rewrite Hc, Hs.
  rewrite value_bind by auto with readonly.
  destruct (value (scanLoop w ctx (resolveIP w 0 dest) lines 0 0) g)
    as [[[sent last] exit] t] eqn:S.
  apply scanLoop_facts in S as [S1 S2].
  destruct exit; simpl; try (split; reflexivity).
  destruct (MaxHops opts <=? last) eqn:E; simpl; [|split; reflexivity].
  apply Z.leb_le in E. split.
  - intros Hm Hall. exfalso. destruct S1 as [->|(h & Hin & Hh)]; [lia|].
    apply List.Forall_forall with (x := h) in Hall; [lia|exact Hin].
  - intros Hex. exfalso. specialize (S2 eq_refl).
    apply List.Exists_exists in Hex as (h & Hin & Hf).
    apply List.Forall_forall with (x := h) in S2; [congruence|exact Hin].
Qed.

Lemma early_end_returns_nil_witness :
  outcome (value (runSequential earlyEnd Sample.never "example.com"
                                DefaultOptions) initPackage)
  = Returns None
  /\ outcome (value (runSequential reachedAtTwo Sample.never "93.184.216.34"
                                   DefaultOptions) initPackage)
     = Returns None.
Proof.
  split.
  - destruct (early_end_returns_nil earlyEnd Sample.never "example.com"
                DefaultOptions initPackage "tracert"
                ["-h"; "30"; "-w"; "3000"; "example.com"]
                (match Start earlyEnd "" [] with inr l => l | inl _ => [] end)
                eq_refl eq_refl) as [A _].
    apply A; [reflexivity|].
    compute_list (emitted (value (runSequential earlyEnd Sample.never
                                    "example.com" DefaultOptions)
                                 initPackage)).
    repeat constructor; reflexivity.
  - destruct (early_end_returns_nil reachedAtTwo Sample.never "93.184.216.34"
                DefaultOptions initPackage "tracert"
                ["-h"; "30"; "-w"; "3000"; "93.184.216.34"]
                (match Start reachedAtTwo "" [] with inr l => l | inl _ => [] end)
                eq_refl eq_refl) as [_ B].
    apply B.
    compute_list (emitted (value (runSequential reachedAtTwo Sample.never
                                    "93.184.216.34" DefaultOptions)
                                 initPackage)).
    apply Exists_cons_tl, Exists_cons_hd. reflexivity.
Defined.

(** * Further properties of the program

    The parallel strategy once more, the parsers' captured groups, the
    application that calls [Run] and stores its hops, and the table that
    shows them. *)

(** ** Outcomes of the parallel strategy *)

Lemma findTrueFinal_zero (d : gset string) (hs : list Hop) :
  Forall (fun h => TTL h <> 0) hs ->
  findTrueFinal d (tag hs) = 0 ->
  Forall (fun h => looksFinal d h = false) hs.
Proof.
  induction 1 as [|h hs Hh _ IH]; simpl; intros H; [constructor|].
  destruct (looksFinal d h) eqn:E; [congruence|]. constructor; auto.
Qed.

Lemma stream_clock (ctx : Context) (T : Z) (slots : list (Hop * bool)) :
  forall t, (t <= snd (stream ctx T slots t))%nat.
Proof.
  induction slots as [|[h got] slots IH]; intros t; simpl; [lia|].
  destruct got; simpl; [|apply IH].
  destruct (selectDone ctx t); simpl; [lia|].
  destruct (_ && _); simpl; [lia|].
  specialize (IH (S t)). destruct (stream ctx T slots (S t)) as [[sent done] t'].
  simpl in *. lia.
Qed.

(** X1. A run of the parallel strategy that got to probing and is never
    cancelled collects one hop per TTL up to [MaxHops].  It returns
    [ErrMaxHopsReached] exactly when none of them succeeded at an address
    of the destination (or was marked final by its probe), and nil exactly
    when one did.  In the first case every collected hop is sent, its
    final flag cleared. *)
Theorem hops_exhausted_iff_no_final
        (w : World) (ctx : Context) (dest : string) (opts : Options)
        (g : Package) (binary : string) :
  let r := value (runParallel w ctx dest opts) g in
  let destIPs := resolveIPs w 0 dest in
  tracerouteBinary w = inr binary -> 0 <= MaxHops opts ->
  cancelledAt ctx = None ->
  List.length (collected r) = Z.to_nat (MaxHops opts)
  /\ (outcome r = Returns (Some ErrMaxHopsReached)
      <-> Forall (fun h => looksFinal destIPs h = false) (collected r))
  /\ (outcome r = Returns None
      <-> Exists (fun h => looksFinal destIPs h = true) (collected r))
  /\ (Forall (fun h => looksFinal destIPs h = false) (collected r) ->
      emitted r = List.map cleared (collected r)).
Proof.
  intros r destIPs Hb Hm Hc.
  pose proof (runParallel_value w ctx dest opts g binary Hb Hm) as V.
  cbv zeta in V. rewrite (launchedCount_never ctx _ Hc) in V.
  set (n := Z.to_nat (MaxHops opts)) in *.
  set (hs := probes w g binary dest (resolveIP w 1 dest) (timeoutSecsOf opts) 0 n)
    in *.
  fold destIPs in V. set (T := findTrueFinal destIPs (tag hs)) in *.
  pose proof (stream_never_done ctx T (tag hs) Hc n) as D.
  destruct (stream ctx T (tag hs) n) as [[sent done] t'] eqn:S.
  simpl in D. subst done. fold r in V.
  assert (O : outcome r
              = if T =? 0 then Returns (Some ErrMaxHopsReached) else Returns None).
  { rewrite V. simpl. unfold parallelOutcome.
    now rewrite (ctxErr_never ctx t' Hc). }
  assert (C : collected r = hs) by now rewrite V.
  assert (Z0 : T = 0 <-> Forall (fun h => looksFinal destIPs h = false) hs).
  { split; [apply findTrueFinal_zero, probes_TTL | apply findTrueFinal_none]. }
  rewrite C. repeat split.
  - apply length_probes.
  - rewrite O. destruct (T =? 0) eqn:E; [|discriminate].
    intros _. apply Z0. now apply Z.eqb_eq.
  - intros F. apply Z0 in F. rewrite O, F. reflexivity.
  - rewrite O. destruct (T =? 0) eqn:E; [discriminate|]. intros _.
    apply Z.eqb_neq in E.
    destruct (findTrueFinal_inv destIPs hs E) as (k & hk & Hk & Hf & _).
    apply List.Exists_exists. exists hk. split; [|exact Hf].
    apply list_elem_of_In. eapply list_elem_of_lookup_2; eauto.
  - intros X. rewrite O. destruct (T =? 0) eqn:E; [|reflexivity].
    apply Z.eqb_eq in E. apply Z0 in E.
    apply List.Exists_exists in X as (h & Hh & Hf).
    rewrite List.Forall_forall in E. rewrite (E h Hh) in Hf. discriminate.
  - intros F. apply Z0 in F.
    assert (E : emitted r = sent) by now rewrite V. rewrite E.
    rewrite F in S. rewrite stream_all in S; [now injection S as <- _|exact Hc|].
    apply List.Forall_forall. reflexivity.
Qed.

Lemma hops_exhausted_iff_no_final_witness :
  let r := value (runParallel Sample.scenario Sample.never "example.com"
                              (mkOptions 5 3000)) initPackage in
  let destIPs := resolveIPs Sample.scenario 0 "example.com" in
  List.length (collected r) = 5%nat
  /\ (outcome r = Returns (Some ErrMaxHopsReached)
      <-> Forall (fun h => looksFinal destIPs h = false) (collected r))
  /\ (outcome r = Returns None
      <-> Exists (fun h => looksFinal destIPs h = true) (collected r))
  /\ (Forall (fun h => looksFinal destIPs h = false) (collected r) ->
      emitted r = List.map cleared (collected r)).
Proof.
  apply (hops_exhausted_iff_no_final Sample.scenario Sample.never "example.com"
           (mkOptions 5 3000) initPackage "/usr/sbin/traceroute").
  - reflexivity.
  - simpl. lia.
  - reflexivity.
Defined.

Lemma cleared_withIsFinal (h : Hop) (b : bool) :
  cleared (withIsFinal h b) = cleared h.
Proof. reflexivity. Qed.

Lemma stream_prefix (ctx : Context) (T : Z) (hs : list Hop) :
  forall (t : nat) (sent : list Hop) (done : bool) (t' : nat),
    stream ctx T (tag hs) t = (sent, done, t') ->
    List.map cleared sent = List.map cleared (take (List.length sent) hs).
Proof.
  induction hs as [|h0 hs IH]; intros t sent done t' H; simpl in H.
  - now injection H as <- _ _.
  - destruct (selectDone ctx t); [now injection H as <- _ _|].
    destruct ((0 <? T) && (TTL h0 =? T)); simpl in H.
    + injection H as <- _ _. reflexivity.
    + destruct (stream ctx T (tag hs) (S t)) as [[sent' done'] t''] eqn:S.
      injection H as <- _ _. simpl. f_equal. eapply IH; eauto.
Qed.

(** X2. Whatever the context does, the hops the parallel strategy sends
    are, up to their final flag, an initial segment of the hops it
    collected: none is invented, skipped or sent out of slot order. *)
Theorem emitted_is_prefix_of_collected
        (w : World) (ctx : Context) (dest : string) (opts : Options)
        (g : Package) :
  let r := value (runParallel w ctx dest opts) g in
  (List.length (emitted r) <= List.length (collected r))%nat
  /\ List.map cleared (emitted r)
     = List.map cleared (take (List.length (emitted r)) (collected r)).
Proof.
  intros r.
  pose proof (runParallel_cases w ctx dest opts g) as Cs.
  cbv zeta in Cs. fold r in Cs.
  destruct Cs as [[C E]|(b & done & _ & _ & _ & S & _)].
  - rewrite C, E. simpl. auto.
  - apply stream_prefix in S. split; [|exact S].
    apply (f_equal (@List.length Hop)) in S.
    rewrite !List.length_map, length_take in S. lia.
Qed.

Lemma launchedCount_cancelled (ctx : Context) (c n : nat) :
  cancelledAt ctx = Some c ->
  forall t, launchedCount ctx t n = Nat.min (c - t) n.
Proof.
  intros H. induction n as [|n IH]; intros t; simpl; [lia|].
  unfold ctxErr. rewrite H.
  destruct (c <=? t)%nat eqn:E.
  - apply Nat.leb_le in E. lia.
  - apply Nat.leb_gt in E. rewrite IH. lia.
Qed.

(** X3. A context that is done from moment [c] on lets the launch loop
    start the probes of the TTLs 1 to [min c MaxHops], in this order, and
    no other; no more hops than that are collected or sent, and when the
    context was done before the loop ran out of TTLs the run returns
    nil. *)
Theorem cancellation_stops_the_launch
        (w : World) (ctx : Context) (dest : string) (opts : Options)
        (g : Package) (binary : string) (c : nat) :
  let r := value (runParallel w ctx dest opts) g in
  let k := Nat.min c (Z.to_nat (MaxHops opts)) in
  tracerouteBinary w = inr binary -> 0 <= MaxHops opts ->
  cancelledAt ctx = Some c ->
  commands r = probeCommands binary dest (timeoutSecsOf opts) 0 k
  /\ List.length (collected r) = k
  /\ (List.length (emitted r) <= k)%nat
  /\ ((c <= Z.to_nat (MaxHops opts))%nat -> outcome r = Returns None).
Proof.
  intros r k Hb Hm Hc.
  pose proof (runParallel_value w ctx dest opts g binary Hb Hm) as V.
  cbv zeta in V. rewrite (launchedCount_cancelled ctx c _ Hc), Nat.sub_0_r in V.
  fold k in V.
  pose proof (stream_clock ctx
    (findTrueFinal (resolveIPs w 0 dest)
       (tag (probes w g binary dest (resolveIP w 1 dest) (timeoutSecsOf opts) 0 k)))
    (tag (probes w g binary dest (resolveIP w 1 dest) (timeoutSecsOf opts) 0 k)) k)
    as Ck.
  destruct (stream _ _ _ _) as [[sent done] t'] eqn:S in V, Ck.
  simpl in Ck. fold r in V. rewrite V. simpl.
  repeat split.
  - apply length_probes.
  - apply stream_prefix in S. apply (f_equal (@List.length Hop)) in S.
    rewrite !List.length_map, length_take, length_probes in S. lia.
  - intros Hle. unfold parallelOutcome.
    assert (E : ctxErr ctx t' = true).
    { unfold ctxErr. rewrite Hc. apply Nat.leb_le. lia. }
    rewrite E, orb_true_r. reflexivity.
Qed.

Lemma cancellation_stops_the_launch_witness :
  let r := value (runParallel Sample.scenario cancelledAtTwo "example.com"
                              (mkOptions 10 3000)) initPackage in
  commands r = probeCommands "/usr/sbin/traceroute" "example.com" 3 0 2
  /\ List.length (collected r) = 2%nat
  /\ (List.length (emitted r) <= 2)%nat
  /\ ((2 <= 10)%nat -> outcome r = Returns None).
Proof.
  apply (cancellation_stops_the_launch Sample.scenario cancelledAtTwo
           "example.com" (mkOptions 10 3000) initPackage
           "/usr/sbin/traceroute" 2).
  - reflexivity.
  - simpl. lia.
  - reflexivity.
Defined.

Lemma probe_shape (w : World) (g : Package) (binary dest destIP : string)
      (timeoutSecs ttl : Z) :
  let h := value (probe w binary dest destIP timeoutSecs ttl) g in
  (Success h = true /\ IsTimeout h = false) \/ h = timeoutHop (TTL h).
Proof.
  unfold value, probe. rewrite bind_readOnly by auto with readonly.
  destruct (firstHop_parsed
              (Split (Output w binary (probeArgs dest timeoutSecs ttl)) newline)
              destIP g) as [ok P].
  inversion P as [ttl0 ip hostname rtt final E|ttl0 E|E]; subst; simpl.
  - destruct (ttl0 =? 0); simpl; [now right|].
    destruct (String.eqb hostname "" && negb (String.eqb ip "")); simpl;
      [|now left].
    destruct (LookupAddr w ttl ip) as [[|name names]|]; simpl; now left.
  - destruct (ttl0 =? 0); now right.
  - now right.
Qed.

(** Whatever holds of every hop the platform's parser returns holds of
    every hop the scanning loop sends. *)
Lemma scanLoop_sends (Q : Hop -> Prop) (w : World) (ctx : Context)
      (destIP : string) (g : Package) (lines : list string) :
  (forall line : string,
      let r := value (if String.eqb (GOOS w) "windows"
                      then parseWindowsLine line destIP
                      else parseUnixLine line destIP) g in
      snd r = true -> Q (fst r)) ->
  forall (t : nat) (lastTTL : Z),
    Forall Q (fst (fst (fst (value (scanLoop w ctx destIP lines t lastTTL) g)))).
Proof.
  intros HQ. induction lines as [|line rest IH]; intros t lastTTL; simpl.
  - constructor.
  - destruct (ctxErr ctx t); [constructor|].
    destruct (_ || _); [apply IH|].
    rewrite value_bind
      by (destruct (String.eqb (GOOS w) "windows"); auto with readonly).
    specialize (HQ line). cbv zeta in HQ.
    destruct (value _ g) as [hop ok] in HQ |- *.
    destruct ok; simpl; [|apply IH]. specialize (HQ eq_refl). simpl in HQ.
    destruct (IsFinal hop).
    + unfold value, ret. simpl. repeat constructor. exact HQ.
    + rewrite value_bind by apply scanLoop_readOnly.
      specialize (IH (S t) (if lastTTL <? TTL hop then TTL hop else lastTTL)).
      destruct (value (scanLoop _ _ _ _ _ _) g) as [[[sent last] exit] t'].
      unfold value, ret. simpl in *. constructor; assumption.
Qed.

Lemma runSequential_sends (Q : Hop -> Prop) (w : World) (ctx : Context)
      (dest : string) (opts : Options) (g : Package) :
  (forall line destIP : string,
      let r := value (if String.eqb (GOOS w) "windows"
                      then parseWindowsLine line destIP
                      else parseUnixLine line destIP) g in
      snd r = true -> Q (fst r)) ->
  Forall Q (emitted (value (runSequential w ctx dest opts) g)).
Proof.
  intros HQ. unfold runSequential.
  destruct (sequentialCommand w dest opts) as [e|[binary args]];
    [constructor|].
  destruct (Start w binary args) as [msg|lines]; [constructor|].
  rewrite value_bind by apply scanLoop_readOnly.
  pose proof (scanLoop_sends Q w ctx (resolveIP w 0 dest) g lines
                (fun line => HQ line (resolveIP w 0 dest)) 0%nat 0) as P.
  destruct (value (scanLoop _ _ _ _ _ _) g) as [[[sent last] exit] t'].
  simpl in P.
  destruct exit; [exact P|exact P|].
  destruct (MaxHops opts <=? last); exact P.
Qed.

(** A hop either succeeded and is no timeout, or is a plain timeout
    apart from its final flag. *)
Lemma Run_emitted_shape
        (w : World) (ctx : Context) (dest : string) (opts : option Options)
        (g : Package) :
  Forall (fun h =>
            (Success h = true /\ IsTimeout h = false)
            \/ cleared h = timeoutHop (TTL h))
         (emitted (value (Run w ctx dest opts) g)).
Proof.
  unfold Run. destruct (String.eqb (GOOS w) "windows") eqn:Hw.
  - apply runSequential_sends. intros line destIP. rewrite Hw. cbv zeta.
    pose proof (parseWindowsLine_parsed line destIP g) as P.
    destruct (value (parseWindowsLine line destIP) g) as [h ok].
    simpl. intros ->. inversion P; subst; simpl; auto.
  - set (o := default DefaultOptions opts).
    set (r := value (runParallel w ctx dest o) g).
    apply List.Forall_forall. intros h Hh.
    pose proof (runParallel_cases w ctx dest o g) as Cs.
    cbv zeta in Cs. fold r in Cs, Hh.
    destruct Cs as [[_ E]|(b & done & _ & _ & C & St & _)].
    { rewrite E in Hh. destruct Hh. }
    apply list_elem_of_In, list_elem_of_lookup_1 in Hh as [i Hi].
    destruct (stream_sent _ _ _ _ _ _ _ St) as [P _].
    destruct (P i h Hi) as (h0 & H0 & ->).
    rewrite C in H0. unfold probes in H0.
    change (List.map ?f ?l) with (f <$> l) in H0.
    rewrite list_lookup_fmap in H0.
    destruct (seq 0 _ !! i) as [j|]; [|discriminate]. injection H0 as <-.
    destruct (probe_shape w g b dest (resolveIP w 1 dest) (timeoutSecsOf o)
                          (Z.of_nat (S j))) as [[A B]|A].
    + left. split; assumption.
    + right. rewrite cleared_withIsFinal. rewrite A at 1. reflexivity.
Qed.

(** X4. Every hop [Run] sends, on any platform, is a timeout exactly when
    it did not succeed, and a hop that did not succeed carries neither an
    address nor a host name. *)
Theorem emitted_hops_succeeded_or_timed_out
        (w : World) (ctx : Context) (dest : string) (opts : option Options)
        (g : Package) :
  Forall (fun h =>
            IsTimeout h = negb (Success h)
            /\ (Success h = false -> IP h = "" /\ Hostname h = ""))
         (emitted (value (Run w ctx dest opts) g)).
Proof.
  eapply List.Forall_impl; [|apply Run_emitted_shape].
  intros h [[A B]|C].
  - rewrite A, B. split; [reflexivity|discriminate].
  - destruct h as [ttl ip hostname rtt ok fin tmo]. unfold cleared in C.
    simpl in C. injection C as -> -> _ -> ->. simpl. auto.
Qed.

(** ** Reverse lookups *)

Lemma sameButHostname_fields (h h' : Hop) :
  sameButHostname h h' ->
  TTL h = TTL h' /\ IP h = IP h' /\ RTT h = RTT h' /\ Success h = Success h'
  /\ IsFinal h = IsFinal h' /\ IsTimeout h = IsTimeout h'.
Proof.
  destruct h, h'. unfold sameButHostname, withHostname. simpl.
  intros [= -> -> -> -> -> ->]. auto 10.
Qed.

Lemma probe_withLookupAddr (w : World) (f : Z -> string -> option (list string))
      (g : Package) (binary dest destIP : string) (timeoutSecs ttl : Z) :
  sameButHostname
    (value (probe w binary dest destIP timeoutSecs ttl) g)
    (value (probe (withLookupAddr w f) binary dest destIP timeoutSecs ttl) g).
Proof.
  unfold value, probe. rewrite !bind_readOnly by auto with readonly.
  change (Output (withLookupAddr w f)) with (Output w).
  generalize (value (firstHop (Split (Output w binary
                (probeArgs dest timeoutSecs ttl)) newline) destIP) g).
  intros h. simpl.
  set (h' := if TTL h =? 0 then timeoutHop ttl else h).
  destruct (Success h' && String.eqb (Hostname h') ""
            && negb (String.eqb (IP h') "")); [|reflexivity].
  destruct (LookupAddr w ttl (IP h')) as [[|n1 l1]|];
    destruct (f ttl (IP h')) as [[|n2 l2]|]; reflexivity.
Qed.

Lemma looksFinal_sameButHostname (d : gset string) (h h' : Hop) :
  sameButHostname h h' -> looksFinal d h = looksFinal d h'.
Proof.
  intros (_ & Hi & _ & Hs & Hf & _)%sameButHostname_fields.
  unfold looksFinal. now rewrite Hi, Hs, Hf.
Qed.

Lemma findTrueFinal_sameButHostname (d : gset string) (hs hs' : list Hop) :
  Forall2 sameButHostname hs hs' ->
  findTrueFinal d (tag hs) = findTrueFinal d (tag hs').
Proof.
  induction 1 as [|h h' hs hs' Hh _ IH]; simpl; [reflexivity|].
  rewrite (looksFinal_sameButHostname d h h' Hh), IH.
  apply sameButHostname_fields in Hh as (-> & _). reflexivity.
Qed.

Lemma stream_sameButHostname (ctx : Context) (T : Z) (hs hs' : list Hop) :
  Forall2 sameButHostname hs hs' ->
  forall t,
    Forall2 sameButHostname (fst (fst (stream ctx T (tag hs) t)))
                            (fst (fst (stream ctx T (tag hs') t)))
    /\ snd (fst (stream ctx T (tag hs) t)) = snd (fst (stream ctx T (tag hs') t))
    /\ snd (stream ctx T (tag hs) t) = snd (stream ctx T (tag hs') t).
Proof.
  induction 1 as [|h h' hs hs' Hh _ IH]; intros t; simpl.
  - repeat split. constructor.
  - destruct (selectDone ctx t); simpl; [repeat split; constructor|].
    pose proof (sameButHostname_fields h h' Hh) as (E & _). rewrite <- E.
    assert (Hw : forall b, sameButHostname (withIsFinal h b) (withIsFinal h' b)).
    { intros b. unfold sameButHostname in *. destruct h, h'. simpl in *.
      injection Hh as -> -> -> -> -> ->. reflexivity. }
    destruct ((0 <? T) && (TTL h =? T)); simpl.
    + repeat split. constructor; [apply Hw|constructor].
    + specialize (IH (S t)).
      destruct (stream ctx T (tag hs) (S t)) as [[sent done] t1].
      destruct (stream ctx T (tag hs') (S t)) as [[sent' done'] t1'].
      simpl in *. destruct IH as (A & B & C). repeat split; auto.
Qed.

Lemma scanLoop_withLookupAddr (w : World)
      (f : Z -> string -> option (list string)) (ctx : Context)
      (destIP : string) (lines : list string) :
  forall t lastTTL g,
    scanLoop (withLookupAddr w f) ctx destIP lines t lastTTL g
    = scanLoop w ctx destIP lines t lastTTL g.
Proof.
  induction lines as [|line rest IH]; intros t lastTTL g; simpl; [reflexivity|].
  destruct (ctxErr ctx t); [reflexivity|].
  destruct (_ || _ || _); [apply IH|].
  unfold bind.
  destruct ((if String.eqb (GOOS w) "windows"
             then parseWindowsLine line destIP
             else parseUnixLine line destIP) g) as [[hop ok] g'].
  destruct ok; simpl; [|apply IH].
  destruct (IsFinal hop); [reflexivity|].
  now rewrite IH.
Qed.

Lemma runSequential_withLookupAddr (w : World)
      (f : Z -> string -> option (list string)) (ctx : Context)
      (dest : string) (opts : Options) (g : Package) :
  runSequential (withLookupAddr w f) ctx dest opts g
  = runSequential w ctx dest opts g.
Proof.
  unfold runSequential.
  change (sequentialCommand (withLookupAddr w f) dest opts)
    with (sequentialCommand w dest opts).
  destruct (sequentialCommand w dest opts) as [e|[binary args]]; [reflexivity|].
  change (Start (withLookupAddr w f)) with (Start w).
  destruct (Start w binary args) as [msg|lines]; [reflexivity|].
  change (resolveIP (withLookupAddr w f) 0 dest) with (resolveIP w 0 dest).
  unfold bind. now rewrite scanLoop_withLookupAddr.
Qed.

Lemma probes_withLookupAddr (w : World)
      (f : Z -> string -> option (list string)) (g : Package)
      (binary dest destIP : string) (timeoutSecs : Z) (i k : nat) :
  Forall2 sameButHostname
    (probes w g binary dest destIP timeoutSecs i k)
    (probes (withLookupAddr w f) g binary dest destIP timeoutSecs i k).
Proof.
  unfold probes. induction (seq i k) as [|j l IH]; simpl; constructor;
    [apply probe_withLookupAddr | exact IH].
Qed.

(** X5. What the reverse resolver answers changes nothing but host
    names: with any other resolver [Run] executes the same commands,
    returns the same value at the same moment, and sends the same hops up
    to their [Hostname]. *)
Theorem reverse_lookup_changes_host_names_only
        (w : World) (f : Z -> string -> option (list string))
        (ctx : Context) (dest : string) (opts : option Options)
        (g : Package) :
  let r := value (Run w ctx dest opts) g in
  let r' := value (Run (withLookupAddr w f) ctx dest opts) g in
  commands r' = commands r
  /\ outcome r' = outcome r
  /\ clock r' = clock r
  /\ Forall2 sameButHostname (emitted r) (emitted r').
Proof.
  unfold Run. change (GOOS (withLookupAddr w f)) with (GOOS w).
  set (o := default DefaultOptions opts).
  destruct (String.eqb (GOOS w) "windows").
  - unfold value. rewrite runSequential_withLookupAddr. cbv zeta.
    repeat split. apply Forall_Forall2_diag, List.Forall_forall. reflexivity.
  - destruct (tracerouteBinary w) as [e|binary] eqn:Hb.
    { unfold value, runParallel.
      change (tracerouteBinary (withLookupAddr w f)) with (tracerouteBinary w).
      rewrite Hb. simpl. repeat split. constructor. }
    destruct (MaxHops o <? 0) eqn:Hm.
    { unfold value, runParallel.
      change (tracerouteBinary (withLookupAddr w f)) with (tracerouteBinary w).
      rewrite Hb, Hm. simpl. repeat split. constructor. }
    apply Z.ltb_ge in Hm.
    pose proof (runParallel_value w ctx dest o g binary Hb Hm) as V.
    pose proof (runParallel_value (withLookupAddr w f) ctx dest o g binary Hb Hm)
      as V'.
    cbv zeta in V, V'.
    change (resolveIP (withLookupAddr w f) 1 dest) with (resolveIP w 1 dest) in V'.
    change (resolveIPs (withLookupAddr w f) 0 dest) with (resolveIPs w 0 dest) in V'.
    set (k := launchedCount ctx 0 (Z.to_nat (MaxHops o))) in *.
    pose proof (probes_withLookupAddr w f g binary dest (resolveIP w 1 dest)
                  (timeoutSecsOf o) 0 k) as P.
    set (hs := probes w g binary dest (resolveIP w 1 dest) (timeoutSecsOf o) 0 k)
      in *.
    set (hs' := probes (withLookupAddr w f) g binary dest (resolveIP w 1 dest)
                       (timeoutSecsOf o) 0 k) in *.
    rewrite <- (findTrueFinal_sameButHostname _ hs hs' P) in V'.
    set (T := findTrueFinal (resolveIPs w 0 dest) (tag hs)) in *.
    destruct (stream_sameButHostname ctx T hs hs' P k) as (A & B & C).
    destruct (stream ctx T (tag hs) k) as [[sent done] t1].
    destruct (stream ctx T (tag hs') k) as [[sent' done'] t1'].
    simpl in A, B, C. subst done' t1'.
    cbv zeta. rewrite V, V'. simpl. auto.
Qed.

Example probe_reverse_lookup :
  value (probe (withLookupAddr Sample.scenario routerNames)
               "/usr/sbin/traceroute" "example.com" "93.184.216.34" 3 2)
        initPackage
  = mkHop 2 "10.0.0.2" "router.example" 0x1.199999999999ap+1%float
          true false false.
Proof. vm_compute. reflexivity. Qed.

(** ** The sequential strategy and the context *)

Lemma scanLoop_final_last (w : World) (ctx : Context) (destIP : string)
      (g : Package) (lines : list string) :
  forall (t : nat) (lastTTL : Z) (i : nat) (h : Hop),
    fst (fst (fst (value (scanLoop w ctx destIP lines t lastTTL) g))) !! i
    = Some h ->
    IsFinal h = true ->
    S i = List.length
            (fst (fst (fst (value (scanLoop w ctx destIP lines t lastTTL) g)))).
Proof.
  induction lines as [|line rest IH]; intros t lastTTL i h; simpl.
  - discriminate.
  - destruct (ctxErr ctx t); [discriminate|].
    destruct (_ || _ || _); [apply IH|].
    rewrite value_bind
      by (destruct (String.eqb (GOOS w) "windows"); auto with readonly).
    destruct (value (if String.eqb (GOOS w) "windows"
                     then parseWindowsLine line destIP
                     else parseUnixLine line destIP) g) as [hop ok].
    destruct ok; simpl; [|apply IH].
    destruct (IsFinal hop) eqn:F.
    + unfold value, ret. simpl. destruct i; [reflexivity|discriminate].
    + rewrite value_bind by apply scanLoop_readOnly.
      specialize (IH (S t) (if lastTTL <? TTL hop then TTL hop else lastTTL)).
      destruct (value (scanLoop _ _ _ _ _ _) g) as [[[sent last] exit] t'].
      unfold value, ret. simpl in *. destruct i as [|i]; simpl.
      * intros [= <-]. congruence.
      * intros Hi Hf. f_equal. eapply IH; eauto.
Qed.

(** X6. On every platform, a hop sent with the final flag is the last
    hop sent. *)
Theorem final_hop_is_sent_last
        (w : World) (ctx : Context) (dest : string) (opts : option Options)
        (g : Package) (i : nat) (h : Hop) :
  let r := value (Run w ctx dest opts) g in
  emitted r !! i = Some h -> IsFinal h = true ->
  S i = List.length (emitted r).
Proof.
  unfold Run. set (o := default DefaultOptions opts).
  destruct (String.eqb (GOOS w) "windows"); cbv zeta.
  - unfold runSequential.
    destruct (sequentialCommand w dest o) as [e|[binary args]];
      [discriminate|].
    destruct (Start w binary args) as [msg|lines]; [discriminate|].
    rewrite value_bind by apply scanLoop_readOnly.
    pose proof (scanLoop_final_last w ctx (resolveIP w 0 dest) g lines 0%nat 0 i h)
      as P.
    destruct (value (scanLoop _ _ _ _ _ _) g) as [[[sent last] exit] t'].
    simpl in P.
    destruct exit; [exact P|exact P|].
    destruct (MaxHops o <=? last); exact P.
  - pose proof (runParallel_cases w ctx dest o g) as Cs. cbv zeta in Cs.
    destruct Cs as [[_ E]|(b & done & _ & _ & _ & St & _)].
    + rewrite E. discriminate.
    + destruct (stream_sent _ _ _ _ _ _ _ St) as [_ P]. apply P.
Qed.

Lemma final_hop_is_sent_last_witness :
  6%nat = List.length (emitted scenarioRun).
Proof.
  apply (final_hop_is_sent_last Sample.scenario Sample.never "example.com"
           (Some (mkOptions 10 3000)) initPackage 5 (marked scenarioFinal)).
  - vm_compute. reflexivity.
  - reflexivity.
Defined.








Example killed_run_sends_first_hop :
  List.map TTL (emitted (value (runSequential
                                  (withStart reachedAtTwo killedAfterOne)
                                  cancelledAfterFirstLine "93.184.216.34"
                                  DefaultOptions) initPackage)) = [1]
  /\ List.map TTL (emitted (value (runSequential reachedAtTwo
                                     (uncancelled cancelledAfterFirstLine)
                                     "93.184.216.34" DefaultOptions)
                                  initPackage)) = [1; 2].
Proof. split; vm_compute; reflexivity. Qed.

(** ** The display address *)

(** X8. [resolveIP] returns one of the addresses [resolveIPs] finds in
    the same lookup, and the host as given only when there is none. *)
Theorem resolveIP_is_a_resolved_address (w : World) (call : nat) (host : string) :
  (resolveIPs w call host = ∅ /\ resolveIP w call host = host)
  \/ resolveIP w call host ∈ resolveIPs w call host.
Proof.
  unfold resolveIP.
  destruct (elements (resolveIPs w call host)) as [|ip ips] eqn:E.
  - left. split; [|reflexivity]. apply leibniz_equiv, elements_empty_iff.
    now rewrite E.
  - right. apply elem_of_elements. rewrite E.
    apply list_elem_of_In, nth_In, Nat.mod_upper_bound. discriminate.
Qed.

(** ** What the groups capture *)

Section CaptureFacts.
Context {R : Type}.

Lemma star_every (p : ascii -> bool) (s : string) :
  forall (pos : nat) (cs : captures) (k : @cont R) (res : R),
    star p pos s cs k = Some res ->
    exists n : nat,
      k (pos + n)%nat (sliceFrom n s) cs = Some res
      /\ every p (sliceTo n s) = true.
Proof.
  induction s as [|c s IH]; intros pos cs k res H; simpl in H.
  - exists 0%nat. rewrite Nat.add_0_r. auto.
  - destruct (p c) eqn:Hp.
    + destruct (star p (S pos) s cs k) as [x|] eqn:E.
      * injection H as ->. apply IH in E as (n & Hk & Hn).
        exists (S n). rewrite Nat.add_succ_r. simpl. now rewrite Hp.
      * exists 0%nat. rewrite Nat.add_0_r. auto.
    + exists 0%nat. rewrite Nat.add_0_r. auto.
Qed.

(** Matching only adds captures, and only of the pattern's own
    groups. *)
Lemma run_pushes (r : regex) :
  forall (pos : nat) (s : string) (cs : captures) (k : @cont R) (res : R),
    run r pos s cs k = Some res ->
    exists (n : nat) (new : captures),
      k (pos + n)%nat (sliceFrom n s) (new ++ cs) = Some res
      /\ Forall (fun c => In (fst c) (groupsOf r)) new.
Proof.
  induction r as [|p|p|r1 IH1|r1 IH1 r2 IH2|i r1 IH1|];
    intros pos s cs k res H; simpl in H.
  - destruct (Nat.eqb pos 0); [|discriminate].
    exists 0%nat, []. rewrite Nat.add_0_r. auto.
  - destruct s as [|c s]; [discriminate|].
    destruct (p c); [|discriminate].
    exists 1%nat, []. rewrite Nat.add_1_r. auto.
  - apply star_every in H as (n & Hk & _). exists n, []. auto.
  - destruct (run r1 pos s cs k) as [x|] eqn:E.
    + injection H as ->. apply IH1 in E as (n & new & Hk & Hn).
      exists n, new. auto.
    + exists 0%nat, []. rewrite Nat.add_0_r. auto.
  - apply IH1 in H as (n1 & new1 & H & Hn1).
    apply IH2 in H as (n2 & new2 & H & Hn2).
    exists (n1 + n2)%nat, (new2 ++ new1).
    rewrite sliceFrom_sliceFrom, <- Nat.add_assoc, app_assoc in H.
    split; [exact H|]. simpl. apply Forall_app. split.
    + eapply List.Forall_impl; [|exact Hn2]. intros c Hc.
      apply in_or_app. now right.
    + eapply List.Forall_impl; [|exact Hn1]. intros c Hc.
      apply in_or_app. now left.
  - apply IH1 in H as (n & new & H & Hn).
    exists n, ((i, sliceTo (pos + n - pos) s) :: new). split; [exact H|].
    simpl. constructor; [now left|].
    eapply List.Forall_impl; [|exact Hn]. intros c Hc. now right.
  - exists 0%nat, []. rewrite Nat.add_0_r. auto.
Qed.

(** A group around [p+] captures a non-empty run of bytes of [p]. *)
Lemma run_group_plus (i : nat) (p : ascii -> bool) (pos : nat) (s : string)
      (cs : captures) (k : @cont R) (res : R) :
  run (Group i (Plus p)) pos s cs k = Some res ->
  exists (pos' : nat) (s' txt : string),
    k pos' s' ((i, txt) :: cs) = Some res
    /\ every p txt = true /\ txt <> "".
Proof.
  simpl. destruct s as [|c s]; [discriminate|].
  destruct (p c) eqn:Hp; [|discriminate].
  intros H. apply star_every in H as (n & Hk & Hn).
  exists (S pos + n)%nat, (sliceFrom n s), (String c (sliceTo n s)).
  replace (S pos + n - pos)%nat with (S n) in Hk by lia.
  split; [exact Hk|]. simpl. rewrite Hp, Hn. split; [reflexivity|discriminate].
Qed.

(** A pattern that ends with such a group leaves its capture on top. *)
Lemma run_seq_last (rs : list regex) (i : nat) (p : ascii -> bool) :
  forall (pos : nat) (s : string) (cs : captures) (k : @cont R) (res : R),
    run (Seq (rs ++ [Group i (Plus p)])) pos s cs k = Some res ->
    exists (pos' : nat) (s' : string) (cs' : captures) (txt : string),
      k pos' s' ((i, txt) :: cs') = Some res
      /\ every p txt = true /\ txt <> "".
Proof.
  induction rs as [|r rs IH]; intros pos s cs k res H.
  - change (Seq ([] ++ [Group i (Plus p)])) with (Cat (Group i (Plus p)) Empty)
      in H.
    change (run (Cat (Group i (Plus p)) Empty) pos s cs k)
      with (run (Group i (Plus p)) pos s cs
                (fun pos' s' cs' => run Empty pos' s' cs' k)) in H.
    apply run_group_plus in H as (pos' & s' & txt & H & Ht).
    exists pos', s', cs, txt. auto.
  - change (Seq ((r :: rs) ++ [Group i (Plus p)]))
      with (Cat r (Seq (rs ++ [Group i (Plus p)]))) in H.
    change (run (Cat r (Seq (rs ++ [Group i (Plus p)]))) pos s cs k)
      with (run r pos s cs
                (fun pos' s' cs' =>
                   run (Seq (rs ++ [Group i (Plus p)])) pos' s' cs' k)) in H.
    apply run_pushes in H as (n & new & H & _). eapply IH, H.
Qed.
End CaptureFacts.

Lemma group_pushed (new cs : captures) (i : nat) (txt : string) :
  Forall (fun c => fst c <> i) new ->
  group (new ++ (i, txt) :: cs) i = txt.
Proof.
  induction 1 as [|[j t] new Hj _ IH]; simpl.
  - now rewrite Nat.eqb_refl.
  - simpl in Hj. destruct (Nat.eqb i j) eqn:E; [|exact IH].
    apply Nat.eqb_eq in E. congruence.
Qed.

Lemma search_matchAt (r : regex) (s : string) :
  forall (off b e : nat) (cs : captures),
    search r off s = Some (b, e, cs) ->
    exists s' : string, matchAt r b s' = Some (e, cs).
Proof.
  induction s as [|c s IH]; intros off b e cs H; simpl in H.
  - destruct (matchAt r off "") as [[e' cs']|] eqn:E; [|discriminate].
    injection H as <- <- <-. eauto.
  - destruct (matchAt r off (String c s)) as [[e' cs']|] eqn:E.
    + injection H as <- <- <-. eauto.
    + eapply IH, H.
Qed.

(** The first group of a pattern that starts with [^\s*(\d+)] captures
    digits. *)
Lemma ttl_group (rest : regex) (off : nat) (s : string) (e : nat)
      (cs : captures) :
  ~ In 1%nat (groupsOf rest) ->
  matchAt (Cat BeginText (Cat (Star space) (Cat (Group 1 (Plus digit)) rest)))
          off s = Some (e, cs) ->
  every digit (group cs 1) = true /\ group cs 1 <> "".
Proof.
  intros Hrest H. unfold matchAt in H.
  change (run (Cat BeginText (Cat (Star space) (Cat (Group 1 (Plus digit)) rest)))
              off s [] (fun e _ cs => Some (e, cs)))
    with (run BeginText off s []
            (fun p1 s1 c1 =>
               run (Star space) p1 s1 c1
                 (fun p2 s2 c2 =>
                    run (Group 1 (Plus digit)) p2 s2 c2
                      (fun p3 s3 c3 =>
                         run rest p3 s3 c3 (fun e _ cs => Some (e, cs))))))
    in H.
  apply run_pushes in H as (n1 & new1 & H & F1).
  apply run_pushes in H as (n2 & new2 & H & F2).
  simpl in F1, F2.
  assert (new1 = []) as -> by (destruct new1; [reflexivity|now inversion F1]).
  assert (new2 = []) as -> by (destruct new2; [reflexivity|now inversion F2]).
  apply run_group_plus in H as (pos' & s' & txt & H & Ht1 & Ht2).
  apply run_pushes in H as (n3 & new3 & H & F3).
  injection H as _ <-.
  rewrite group_pushed; [auto|].
  eapply List.Forall_impl; [|exact F3]. intros [j t] Hc E. simpl in *. subst j. auto.
Qed.

Lemma Atoi_digits (s : string) :
  every digit s = true -> s <> "" -> 0 <= Atoi s <= maxInt.
Proof.
  intros H Hne.
  assert (D : forall (t : string) (acc : Z),
             every digit t = true -> 0 <= acc ->
             exists v : Z, digitsValue acc t = Some v /\ 0 <= v).
  { induction t as [|c t IH]; intros acc Ht Hacc; simpl in *; [eauto|].
    apply andb_true_iff in Ht as [Hc Ht]. unfold digit in Hc. rewrite Hc.
    apply IH; [exact Ht | lia]. }
  destruct s as [|c s]; [congruence|].
  destruct (D (String c s) 0 H ltac:(lia)) as (v & Hv & Hv0).
  assert (U : unsignedValue (String c s) = Some v) by exact Hv.
  simpl in H. apply andb_true_iff in H as [Hc _].
  assert (A : Atoi (String c s) = Z.min maxInt v).
  { unfold Atoi. rewrite U.
    destruct c as [[] [] [] [] [] [] [] []]; try reflexivity;
      vm_compute in Hc; discriminate. }
  rewrite A. unfold maxInt. lia.
Qed.

Lemma FindStringSubmatch_ttl (re : Regexp) (rest : regex) (line : string)
      (m : list string) :
  expr re = Cat BeginText (Cat (Star space) (Cat (Group 1 (Plus digit)) rest)) ->
  ~ In 1%nat (groupsOf rest) -> (1 <= numGroups re)%nat ->
  FindStringSubmatch re line = Some m ->
  0 <= Atoi (sub m 1) <= maxInt.
Proof.
  intros He Hrest Hn H. unfold FindStringSubmatch in H.
  destruct (search (expr re) 0 line) as [[[b e] cs]|] eqn:E; [|discriminate].
  injection H as <-. apply search_matchAt in E as [s' E].
  rewrite He in E. apply ttl_group in E as [E1 E2]; [|exact Hrest].
  unfold submatches, sub.
  destruct (numGroups re) as [|n]; [lia|]. simpl.
  now apply Atoi_digits.
Qed.

(** ** The TTL a parser reads *)

Lemma parseUnixLine_TTL_from (P : Z -> Prop) (line destIP : string)
      (g : Package) :
  P 0 ->
  (forall m, FindStringSubmatch (reUnixTimeout g) line = Some m ->
             P (Atoi (sub m 1))) ->
  (forall m, FindStringSubmatch (reUnixHopNumeric g) line = Some m ->
             P (Atoi (sub m 1))) ->
  (forall m, FindStringSubmatch (reUnixHopNamed g) line = Some m ->
             P (Atoi (sub m 1))) ->
  P (TTL (fst (value (parseUnixLine line destIP) g))).
Proof.
  intros H0 H1 H2 H3.
  unfold value, parseUnixLine, bind, load, ret. simpl.
  destruct (FindStringSubmatch (reUnixTimeout g) line) as [m1|];
    destruct (FindStringSubmatch (reUnixHopNumeric g) line) as [m2|];
    destruct (FindStringSubmatch (reUnixHopNamed g) line) as [m3|];
    repeat match goal with
           | |- context [if ?x then _ else _] => destruct x; simpl
           end; simpl; auto.
Qed.

Lemma parseWindowsLine_TTL_from (P : Z -> Prop) (line destIP : string)
      (g : Package) :
  P 0 ->
  (forall m, FindStringSubmatch (reWinTimeout g) line = Some m ->
             P (Atoi (sub m 1))) ->
  (forall m, FindStringSubmatch (reWinHop g) line = Some m ->
             P (Atoi (sub m 1))) ->
  P (TTL (fst (value (parseWindowsLine line destIP) g))).
Proof.
  intros H0 H1 H2.
  unfold value, parseWindowsLine, bind, load, ret. simpl.
  destruct (MatchString (reWinTimeout g) line && Contains line "*"); simpl.
  - destruct (FindStringSubmatch (reWinTimeout g) line) as [m1|]; simpl; auto.
  - destruct (FindStringSubmatch (reWinHop g) line) as [m2|]; simpl; auto.
    destruct (negb (Index (TrimSpace (sub m2 2)) " [" =? -1)); simpl; auto.
Qed.

Lemma parseUnixLine_TTL (line destIP : string) :
  0 <= TTL (fst (value (parseUnixLine line destIP) initPackage)) <= maxInt.
Proof.
  apply (parseUnixLine_TTL_from (fun z => 0 <= z <= maxInt));
    [unfold maxInt; lia|..];
    intros m Hm;
    (eapply FindStringSubmatch_ttl with (4 := Hm);
     [reflexivity | simpl; intuition discriminate | simpl; lia]).
Qed.

Lemma parseWindowsLine_TTL (line destIP : string) :
  0 <= TTL (fst (value (parseWindowsLine line destIP) initPackage)) <= maxInt.
Proof.
  apply (parseWindowsLine_TTL_from (fun z => 0 <= z <= maxInt));
    [unfold maxInt; lia|..];
    intros m Hm;
    (eapply FindStringSubmatch_ttl with (4 := Hm);
     [reflexivity | simpl; intuition discriminate | simpl; lia]).
Qed.

(** X9. The TTL of whatever the two parsers return lies between 0 and
    the largest [int]: the first group captures digits only, so it never
    reads as a negative number, and a number too long for an [int] is
    clamped. *)
Theorem parsed_TTL_in_range (line destIP : string) :
  0 <= TTL (fst (value (parseUnixLine line destIP) initPackage)) <= maxInt
  /\ 0 <= TTL (fst (value (parseWindowsLine line destIP) initPackage)) <= maxInt.
Proof. split; [apply parseUnixLine_TTL | apply parseWindowsLine_TTL]. Qed.

Lemma firstHop_TTL (lines : list string) (destIP : string) :
  0 <= TTL (value (firstHop lines destIP) initPackage).
Proof.
  induction lines as [|l rest IH]; simpl; [reflexivity|].
  destruct (_ || _); [exact IH|].
  unfold value at 1. rewrite bind_readOnly by auto with readonly.
  destruct (parseUnixLine_TTL (TrimSpace l) destIP) as [P _].
  destruct (value (parseUnixLine (TrimSpace l) destIP) initPackage) as [h ok].
  destruct ok; simpl; [exact P|exact IH].
Qed.

Lemma probe_TTL_pos (w : World) (binary dest destIP : string)
      (timeoutSecs ttl : Z) :
  0 < ttl ->
  0 < TTL (value (probe w binary dest destIP timeoutSecs ttl) initPackage).
Proof.
  intros H. unfold value, probe. rewrite bind_readOnly by auto with readonly.
  pose proof (firstHop_TTL (Split (Output w binary
                (probeArgs dest timeoutSecs ttl)) newline) destIP) as P.
  revert P.
  generalize (value (firstHop (Split (Output w binary
                (probeArgs dest timeoutSecs ttl)) newline) destIP) initPackage).
  intros h P. simpl.
  destruct (TTL h =? 0) eqn:E; simpl; [exact H|].
  apply Z.eqb_neq in E.
  destruct (Success h && String.eqb (Hostname h) "" && negb (String.eqb (IP h) ""));
    [|lia].
  destruct (LookupAddr w ttl (IP h)) as [[|name names]|]; simpl; lia.
Qed.

Lemma probes_TTL_pos (w : World) (binary dest destIP : string)
      (timeoutSecs : Z) (i k : nat) :
  Forall (fun h => 0 < TTL h)
         (probes w initPackage binary dest destIP timeoutSecs i k).
Proof.
  unfold probes. apply List.Forall_forall. intros h Hh.
  apply in_map_iff in Hh as (j & <- & _). apply probe_TTL_pos. lia.
Qed.

(** The first place at which a property holds. *)
Lemma first_place {A : Type} (P : A -> Prop) (dec : forall a, {P a} + {~ P a})
      (l : list A) :
  forall (k : nat) (x : A),
    l !! k = Some x -> P x ->
    exists (j : nat) (y : A),
      l !! j = Some y /\ P y /\ Forall (fun z => ~ P z) (take j l).
Proof.
  induction l as [|a l IH]; intros k x Hk Hx; [discriminate|].
  destruct (dec a) as [Ha|Ha].
  - exists 0%nat, a. repeat split; [exact Ha|constructor].
  - destruct k as [|k]; simpl in Hk; [injection Hk as ->; contradiction|].
    destruct (IH k x Hk Hx) as (j & y & Hj & Hy & Hlow).
    exists (S j), y. repeat split; auto. simpl. constructor; assumption.
Qed.

(** X10. What the caller sees of the parallel strategy, with the patterns
    as compiled and the run never cancelled: nil is returned exactly when
    the last hop sent is marked final, and [ErrMaxHopsReached] exactly
    when no hop sent is. *)
Theorem nil_exactly_when_final_hop_sent
        (w : World) (ctx : Context) (dest : string) (opts : Options)
        (binary : string) :
  let r := value (runParallel w ctx dest opts) initPackage in
  tracerouteBinary w = inr binary -> 0 <= MaxHops opts ->
  cancelledAt ctx = None ->
  (outcome r = Returns None
   <-> exists h : Hop, last (emitted r) = Some h /\ IsFinal h = true)
  /\ (outcome r = Returns (Some ErrMaxHopsReached)
      <-> Forall (fun h => IsFinal h = false) (emitted r)).
Proof.
  intros r Hb Hm Hc.
  pose proof (runParallel_value w ctx dest opts initPackage binary Hb Hm) as V.
  cbv zeta in V. rewrite (launchedCount_never ctx _ Hc) in V.
  set (n := Z.to_nat (MaxHops opts)) in *.
  pose proof (probes_TTL_pos w binary dest (resolveIP w 1 dest)
                (timeoutSecsOf opts) 0 n) as Pos.
  set (hs := probes w initPackage binary dest (resolveIP w 1 dest)
                    (timeoutSecsOf opts) 0 n) in *.
  set (T := findTrueFinal (resolveIPs w 0 dest) (tag hs)) in *.
  pose proof (stream_never_done ctx T (tag hs) Hc n) as D.
  destruct (Z.eq_dec T 0) as [E|E].
  - (* no hop looks final: everything is sent, cleared *)
    assert (St : stream ctx T (tag hs) n
                 = (List.map cleared hs, false, (n + List.length hs)%nat)).
    { apply stream_all; [exact Hc|]. apply List.Forall_forall. intros h _.
      rewrite E. reflexivity. }
    rewrite St in V. fold r in V. rewrite V. simpl.
    unfold parallelOutcome. rewrite (ctxErr_never ctx _ Hc), E. simpl.
    assert (F : Forall (fun h => IsFinal h = false) (List.map cleared hs)).
    { apply List.Forall_forall. intros h (h0 & <- & _)%in_map_iff. reflexivity. }
    split; split; try discriminate; auto.
    intros (h & Hl & Hf). apply last_Some in Hl as [l' Hl].
    rewrite Hl in F. apply Forall_app in F as [_ F].
    apply Forall_cons in F as [F _]. congruence.
  - (* the lowest hop with the TTL found is sent last, marked *)
    destruct (findTrueFinal_inv _ hs E) as (k & hk & Hk & _ & Ht). fold T in Ht.
    assert (HT : 0 < T).
    { rewrite <- Ht. rewrite List.Forall_forall in Pos. apply Pos.
      apply list_elem_of_In. eapply list_elem_of_lookup_2; eauto. }
    destruct (first_place (fun h => TTL h = T) (fun h => Z.eq_dec (TTL h) T)
                          hs k hk Hk Ht) as (j & hj & Hj & Hjt & Hlow).
    rewrite (stream_until ctx T Hc HT hs j hj n Hj Hjt Hlow) in V.
    fold r in V. rewrite V. simpl.
    unfold parallelOutcome. rewrite (ctxErr_never ctx _ Hc). simpl.
    apply Z.eqb_neq in E. rewrite E.
    split; split; try discriminate; auto.
    + intros _. exists (marked hj). split; [|reflexivity].
      apply last_snoc.
    + intros F. apply Forall_app in F as [_ F].
      apply Forall_cons in F as [F _]. discriminate.
Qed.

Lemma nil_exactly_when_final_hop_sent_witness :
  (outcome scenarioRun = Returns None
   <-> exists h : Hop, last (emitted scenarioRun) = Some h /\ IsFinal h = true)
  /\ (outcome scenarioRun = Returns (Some ErrMaxHopsReached)
      <-> Forall (fun h => IsFinal h = false) (emitted scenarioRun)).
Proof.
  apply (nil_exactly_when_final_hop_sent Sample.scenario Sample.never
           "example.com" (mkOptions 10 3000) "/usr/sbin/traceroute").
  - reflexivity.
  - simpl. lia.
  - reflexivity.
Defined.

(** ** A line with an asterisk after the TTL *)














(** ** The host token of a [tracert] line *)

Lemma every_In (p : ascii -> bool) (s : string) :
  every p s = true
  <-> forall c : ascii, In c (list_ascii_of_string s) -> p c = true.
Proof.
  induction s as [|a s IH]; simpl.
  - split; [intros _ c []|reflexivity].
  - rewrite andb_true_iff, IH. split.
    + intros [Ha Hs] c [<-|Hc]; auto.
    + intros H. split; [apply H; now left|]. intros c Hc. apply H. now right.
Qed.

Lemma In_sliceFrom (c : ascii) (n : nat) (s : string) :
  In c (list_ascii_of_string (sliceFrom n s)) ->
  In c (list_ascii_of_string s).
Proof.
  revert s. induction n as [|n IH]; intros [|a s]; simpl; auto.
Qed.

Lemma In_revString (c : ascii) (s : string) :
  In c (list_ascii_of_string (revString s)) <-> In c (list_ascii_of_string s).
Proof.
  unfold revString. rewrite list_ascii_of_string_of_list_ascii.
  symmetry. apply in_rev.
Qed.

Lemma In_trimLeftFuel (c : ascii) (fuel : nat) (tbl : list string) :
  forall s : string,
    In c (list_ascii_of_string (trimLeftFuel fuel tbl s)) ->
    In c (list_ascii_of_string s).
Proof.
  induction fuel as [|fuel IH]; intros s; [auto|].
  cbn [trimLeftFuel]. destruct (spacePrefix tbl s) as [|n]; [auto|].
  intros H. apply IH in H. eapply In_sliceFrom, H.
Qed.

Lemma In_TrimSpace (c : ascii) (s : string) :
  In c (list_ascii_of_string (TrimSpace s)) -> In c (list_ascii_of_string s).
Proof.
  unfold TrimSpace, trimRightSpace, trimLeftSpace. intros H.
  apply In_revString, In_trimLeftFuel, In_revString, In_trimLeftFuel in H.
  exact H.
Qed.

Lemma every_TrimSpace (p : ascii -> bool) (s : string) :
  every p s = true -> every p (TrimSpace s) = true.
Proof.
  rewrite !every_In. intros H c Hc. apply H, In_TrimSpace, Hc.
Qed.

(** A text without blanks does not contain [" ["]. *)
Lemma Index_none (s : string) :
  every nonspace s = true -> Index s " [" = -1.
Proof.
  unfold Index. generalize 0%nat.
  induction s as [|c s IH]; intros off H; [reflexivity|].
  cbn [every] in H. apply andb_true_iff in H as [Hc Hs].
  cbn [indexFrom HasPrefix].
  destruct (Ascii.eqb " " c) eqn:E.
  - apply Ascii.eqb_eq in E. subst c. discriminate.
  - cbn [andb]. apply IH, Hs.
Qed.

Lemma FindStringSubmatch_host (line : string) (m : list string) :
  FindStringSubmatch (reWinHop initPackage) line = Some m ->
  every nonspace (sub m 2) = true.
Proof.
  unfold FindStringSubmatch. intros H.
  destruct (search (expr (reWinHop initPackage)) 0 line) as [[[b e] cs]|] eqn:E;
    [|discriminate].
  injection H as <-. apply search_matchAt in E as [s' E].
  unfold matchAt in E.
  change (expr (reWinHop initPackage))
    with (Seq ([BeginText; Star space; Group 1 (Plus digit); Plus space;
                Repeat_1_3
                  (Seq [Quest (Lit "<"); Plus digit; Plus space; Lit "m";
                        Lit "s"; Plus space]);
                Star space] ++ [Group 2 (Plus nonspace)])) in E.
  apply run_seq_last in E as (pos' & s'' & cs' & txt & E & Ht & _).
  injection E as _ <-. exact Ht.
Qed.

Lemma parseWindowsLine_host (line destIP : string) :
  let h := fst (value (parseWindowsLine line destIP) initPackage) in
  Hostname h = "" /\ every nonspace (IP h) = true.
Proof.
  pose proof (FindStringSubmatch_host line) as F. revert F.
  unfold value, parseWindowsLine, bind, load, ret.
  cbn [fst snd reWinTimeout reWinHop reWinRTT].
  generalize (reWinHop initPackage). intros re F.
  destruct (MatchString _ line && Contains line "*"); simpl.
  - destruct (FindStringSubmatch _ line); simpl; auto.
  - destruct (FindStringSubmatch re line) as [m|]; simpl; [|auto].
    specialize (F m eq_refl). apply every_TrimSpace in F.
    rewrite (Index_none _ F). simpl. auto.
Qed.

Example parseWindowsLine_named :
  value (parseWindowsLine
           "  1    <1 ms    <1 ms    <1 ms  router.local [192.168.1.1]"
           "192.168.1.1") initPackage
  = (mkHop 1 "router.local" "" 1%float true false false, true).
Proof. vm_compute. reflexivity. Qed.

(** X11. On Windows no hop carries a host name and no address contains a
    blank: the host token is captured by [\S+], so it never contains the
    blank and bracket that [parseWindowsLine] splits at, and a line that
    ends with [name [address]] yields the name as the address. *)
Theorem windows_hops_carry_no_host_name
        (w : World) (ctx : Context) (dest : string) (opts : option Options) :
  GOOS w = "windows" ->
  Forall (fun h => Hostname h = "" /\ every nonspace (IP h) = true)
         (emitted (value (Run w ctx dest opts) initPackage)).
Proof.
  intros Hw. unfold Run. rewrite Hw, String.eqb_refl.
  apply runSequential_sends. intros line destIP. rewrite Hw, String.eqb_refl.
  intros r _. apply parseWindowsLine_host.
Qed.

Lemma windows_hops_carry_no_host_name_witness :
  Forall (fun h => Hostname h = "" /\ every nonspace (IP h) = true)
         (emitted (value (Run namedHopWindows Sample.never "192.168.1.1" None)
                         initPackage)).
Proof.
  apply (windows_hops_carry_no_host_name namedHopWindows Sample.never
           "192.168.1.1" None).
  reflexivity.
Defined.

(** ** What is stored of a trace, and what the table shows of it *)

Lemma last_cons_default {A B : Type} (f : A -> B) (x : A) (l : list A) (d : B) :
  default d (f <$> last (x :: l)) = default (f x) (f <$> last l).
Proof.
  rewrite last_cons. destruct (last l); reflexivity.
Qed.

Lemma count_fold (hops : list DB.HopRecord) :
  forall (a b : Z) (c : float64),
    fold_left DB.count hops (a, b, c)
    = (a + Z.of_nat (List.length (List.filter DB.Success hops)),
       b + Z.of_nat (List.length
                       (List.filter (fun h => negb (DB.Success h)) hops)),
       default c (DB.RTT <$> last (List.filter
                                     (fun h => DB.Success h && DB.IsFinal h)
                                     hops))).
Proof.
  induction hops as [|h hops IH]; intros a b c; simpl.
  - now rewrite !Z.add_0_r.
  - destruct (DB.Success h); simpl; rewrite IH.
    + rewrite Nat2Z.inj_succ. destruct (DB.IsFinal h); simpl.
      * rewrite last_cons_default. f_equal. f_equal. lia.
      * f_equal. f_equal. lia.
    + rewrite Nat2Z.inj_succ. f_equal. f_equal. lia.
Qed.

Lemma length_filter_negb {A : Type} (p : A -> bool) (l : list A) :
  (List.length (List.filter p l)
   + List.length (List.filter (fun x => negb (p x)) l))%nat
  = List.length l.
Proof.
  induction l as [|x l IH]; simpl; [reflexivity|].
  destruct (p x); simpl; lia.
Qed.

(** X12. The counters [SaveTrace] stores with a trace: [hopCount] is the
    number of hops that succeeded, [hopCount + timeoutCount] the number of
    hops, and [totalRTT] the RTT of the last hop that succeeded and is
    final, 0 when there is none. *)
Theorem SaveTrace_summary (hops : list DB.HopRecord) :
  let s := DB.summary hops in
  fst (fst s) = Z.of_nat (List.length (List.filter DB.Success hops))
  /\ fst (fst s) + snd (fst s) = Z.of_nat (List.length hops)
  /\ snd s = default zero
               (DB.RTT <$> last (List.filter
                                   (fun h => DB.Success h && DB.IsFinal h)
                                   hops)).
Proof.
  unfold DB.summary. rewrite count_fold. simpl.
  repeat split. rewrite <- (length_filter_negb DB.Success hops). lia.
Qed.

(** X13. [IsTimeout] is not stored, and nothing is lost by that: for
    every hop [Run] sends, what the table is given for the stored hop
    ([isTimeout] rebuilt as [!success]) is what the live event carried. *)
Theorem stored_hop_displays_as_live
        (w : World) (ctx : Context) (dest : string) (opts : option Options)
        (g : Package) :
  Forall (fun h => Frontend.asHopData (toHopRecord h) = Frontend.hopEvent h)
         (emitted (value (Run w ctx dest opts) g)).
Proof.
  eapply List.Forall_impl; [|apply Run_emitted_shape].
  intros h H. unfold Frontend.asHopData, Frontend.hopEvent, toHopRecord. simpl.
  f_equal. destruct H as [[A B]|C].
  - now rewrite A, B.
  - destruct h as [ttl ip hostname rtt ok fin tmo]. unfold cleared in C.
    simpl in C. injection C as _ _ _ -> ->. reflexivity.
Qed.


Lemma footer_counts (hs : list Hop) :
  let s := DB.summary (List.map toHopRecord hs) in
  Z.of_nat (Frontend.successCount (List.map Frontend.hopEvent hs)) = fst (fst s)
  /\ Z.of_nat (Frontend.timeoutCount (List.map Frontend.hopEvent hs))
     = snd (fst s).
Proof.
  unfold DB.summary. rewrite count_fold. simpl.
  unfold Frontend.successCount, Frontend.timeoutCount.
  assert (A : forall (p : Frontend.HopData -> bool) (q : DB.HopRecord -> bool),
             (forall h, p (Frontend.hopEvent h) = q (toHopRecord h)) ->
             List.length (List.filter p (List.map Frontend.hopEvent hs))
             = List.length (List.filter q (List.map toHopRecord hs))).
  { intros p q H. induction hs as [|h hs IH]; simpl; [reflexivity|].
    rewrite H. destruct (q (toHopRecord h)); simpl; congruence. }
  rewrite !Z.add_0_l.
  split; f_equal; apply A; intros h; unfold Frontend.pending; simpl;
    apply andb_true_r.
Qed.





Example trace_stored_before_the_final_hop :
  let stored := List.map toHopRecord (take 5 (emitted scenarioRun)) in
  DB.summary stored = (5, 0, zero).
Proof. vm_compute. reflexivity. Qed.

(** ** The rows of the hop table *)

Lemma timeoutRun_spec (hops : list Frontend.HopData) :
  let '(group, rest) := Frontend.timeoutRun hops in
  List.map Frontend.ttl hops = group ++ List.map Frontend.ttl rest
  /\ (List.length rest <= List.length hops)%nat
  /\ match rest with
     | h :: _ => timedOut h = false
     | [] => True
     end
  /\ match hops with
     | h :: _ =>
         timedOut h = true ->
         group <> [] /\ (List.length rest < List.length hops)%nat
     | [] => True
     end.
Proof.
  induction hops as [|h hops IH]; simpl; [auto|].
  fold (timedOut h).
  destruct (timedOut h) eqn:E.
  - destruct (Frontend.timeoutRun hops) as [group rest].
    destruct IH as (A & B & C & _). simpl. rewrite A.
    repeat split; auto; try lia; discriminate.
  - simpl. repeat split; auto; discriminate.
Qed.

Lemma rowsFrom_spec (turns : nat) :
  forall (hops : list Frontend.HopData) (i : nat),
    (List.length hops <= turns)%nat ->
    let rs := Frontend.rowsFrom turns hops i in
    concat (List.map rowTTLs rs) = List.map Frontend.ttl hops
    /\ noAdjacentGroups rs
    /\ Forall (fun r => rowTTLs r <> []) rs
    /\ rowIndices rs = seq i (List.length (rowIndices rs))
    /\ match rs, hops with
       | r :: _, h :: _ => isTimeoutGroup r = timedOut h
       | [], [] => True
       | _, _ => False
       end.
Proof.
  induction turns as [|turns IH]; intros hops i Hlen.
  - destruct hops; [|simpl in Hlen; lia]. simpl. auto.
  - destruct hops as [|hop rest]; [simpl; auto|].
    simpl in Hlen. cbn [Frontend.rowsFrom].
    assert (Step : forall i',
               let rs := Frontend.HopItem hop i
                         :: Frontend.rowsFrom turns rest i' in
               i' = S i -> timedOut hop = false ->
               concat (List.map rowTTLs rs)
               = List.map Frontend.ttl (hop :: rest)
               /\ noAdjacentGroups rs
               /\ Forall (fun r => rowTTLs r <> []) rs
               /\ rowIndices rs = seq i (List.length (rowIndices rs))
               /\ isTimeoutGroup (Frontend.HopItem hop i) = timedOut hop).
    { intros i' rs -> Ht. subst rs.
      destruct (IH rest (S i) ltac:(lia)) as (A & B & C & D & E).
      cbv zeta in *. simpl. rewrite A.
      split; [reflexivity|]. split.
      { destruct (Frontend.rowsFrom turns rest (S i)); simpl; auto. }
      split; [constructor; [discriminate|exact C]|].
      split; [now rewrite D at 1|].
      now rewrite Ht. }
    unfold timedOut in *.
    destruct (Frontend.pending hop) eqn:Hp.
    { apply Step; [reflexivity|]. now rewrite andb_false_r. }
    destruct (Frontend.success hop) eqn:Hs; cbn [negb].
    { apply Step; reflexivity. }
    pose proof (timeoutRun_spec (hop :: rest)) as T.
    destruct (Frontend.timeoutRun (hop :: rest)) as [group rest'].
    destruct T as (A & B & C & D).
    destruct D as [Dg Dl]; [unfold timedOut; now rewrite Hs, Hp|].
    simpl in Dl.
    destruct (IH rest' i ltac:(lia)) as (A' & B' & C' & D' & E').
    cbv zeta in *. cbn [List.map concat rowTTLs]. cbn [List.map] in A.
    rewrite A', A.
    split; [reflexivity|]. split.
    { destruct (Frontend.rowsFrom turns rest' i) as [|r rs'] eqn:R;
        simpl; [auto|].
      split; [|exact B'].
      destruct rest' as [|h' rest'']; [contradiction|].
      unfold timedOut in C. now rewrite E', C. }
    split; [constructor; [exact Dg|exact C']|].
    split; [exact D'|].
    reflexivity.
Qed.

Lemma timeoutRun_run (hops : list Frontend.HopData) :
  let '(group, rest) := Frontend.timeoutRun hops in
  exists run : list Frontend.HopData,
    hops = run ++ rest /\ group = List.map Frontend.ttl run
    /\ Forall (fun h => timedOut h = true) run.
Proof.
  induction hops as [|h hops IH]; simpl.
  - exists []. auto.
  - fold (timedOut h). destruct (timedOut h) eqn:E.
    + destruct (Frontend.timeoutRun hops) as [group rest].
      destruct IH as (run & -> & -> & F).
      exists (h :: run). auto.
    + exists []. auto.
Qed.

Lemma rowsFrom_covers (turns : nat) :
  forall (hops : list Frontend.HopData) (i : nat),
    (List.length hops <= turns)%nat ->
    exists segs : list (list Frontend.HopData),
      Forall2 covers (Frontend.rowsFrom turns hops i) segs
      /\ concat segs = hops.
Proof.
  induction turns as [|turns IH]; intros hops i Hlen.
  - destruct hops; [|simpl in Hlen; lia]. exists []. simpl. auto.
  - destruct hops as [|hop rest]; [exists []; simpl; auto|].
    simpl in Hlen. cbn [Frontend.rowsFrom].
    assert (Step : timedOut hop = false ->
                   exists segs : list (list Frontend.HopData),
                     Forall2 covers
                       (Frontend.HopItem hop i
                        :: Frontend.rowsFrom turns rest (S i)) segs
                     /\ concat segs = hop :: rest).
    { intros Ht. destruct (IH rest (S i) ltac:(lia)) as (segs & F & C).
      exists ([hop] :: segs). split.
      - constructor; [now constructor|exact F].
      - simpl. now rewrite C. }
    destruct (Frontend.pending hop) eqn:Hp.
    { apply Step. unfold timedOut. now rewrite Hp, andb_false_r. }
    destruct (Frontend.success hop) eqn:Hs; cbn [negb].
    { apply Step. unfold timedOut. now rewrite Hs. }
    pose proof (timeoutRun_spec (hop :: rest)) as T.
    pose proof (timeoutRun_run (hop :: rest)) as U.
    destruct (Frontend.timeoutRun (hop :: rest)) as [group rest'].
    destruct T as (_ & _ & _ & D).
    destruct D as [Dg Dl]; [unfold timedOut; now rewrite Hs, Hp|].
    destruct U as (run & E & -> & F).
    simpl in Dl.
    destruct (IH rest' i ltac:(lia)) as (segs & F' & C).
    exists (run :: segs). split.
    + constructor; [|exact F'].
      constructor; [|exact F]. intros ->. now apply Dg.
    + simpl. now rewrite C.
Qed.

(** X15. The rows of the table cut the hops, in order, into hop rows,
    each for one hop that is no timeout, and timeout groups, each for a
    run of timeouts with their TTLs; no timeout group is empty and no two
    groups are adjacent, so a run of timeouts is collapsed whole; the hop
    rows are numbered 0, 1, 2, ... *)
Theorem rows_collapse_runs_of_timeouts (hops : list Frontend.HopData) :
  let rs := Frontend.rows hops in
  concat (List.map rowTTLs rs) = List.map Frontend.ttl hops
  /\ noAdjacentGroups rs
  /\ Forall (fun r => rowTTLs r <> []) rs
  /\ rowIndices rs = seq 0 (List.length (rowIndices rs))
  /\ exists segs : list (list Frontend.HopData),
       Forall2 covers rs segs /\ concat segs = hops.
Proof.
  destruct (rowsFrom_spec (List.length hops) hops 0 (Nat.le_refl _))
    as (A & B & C & D & _).
  pose proof (rowsFrom_covers (List.length hops) hops 0 (Nat.le_refl _)) as E.
  auto.
Qed.

Example rows_ex :
  let hop ttl ok := Frontend.mkHopData ttl "" "" zero ok false (negb ok) None in
  Frontend.rows [hop 1 true; hop 2 false; hop 3 false; hop 4 true; hop 5 false]
  = [Frontend.HopItem (hop 1 true) 0; Frontend.TimeoutGroup [2; 3];
     Frontend.HopItem (hop 4 true) 1; Frontend.TimeoutGroup [5]].
Proof. reflexivity. Qed.

(** ** Host suggestions *)

Example GetHostSuggestions_ex :
  GetHostSuggestions (Some sampleHosts) = ["nas"; "nas.local"; "build"].
Proof. vm_compute. reflexivity. Qed.

Lemma upToComment_no_comment (names : list string) :
  Forall (fun name => HasPrefix name "#" = false) (upToComment names).
Proof.
  induction names as [|name rest IH]; simpl; [constructor|].
  destruct (HasPrefix name "#") eqn:E; constructor; assumption.
Qed.

Lemma addNames_spec (names : list string) :
  forall (seen : gset string) (results : list string),
    NoDup results -> (forall x, x ∈ seen <-> In x results) ->
    let '(seen', results') := addNames names seen results in
    NoDup results'
    /\ (forall x, x ∈ seen' <-> In x results')
    /\ (forall x, In x results' <-> In x results \/ In x (upToComment names)).
Proof.
  induction names as [|name rest IH]; intros seen results Hnd Hseen; simpl.
  - split; [exact Hnd|]. split; [exact Hseen|]. intros x.
    split; [auto|]. intros [H|[]]; exact H.
  - destruct (HasPrefix name "#").
    { split; [exact Hnd|]. split; [exact Hseen|]. intros x.
      split; [auto|]. intros [H|[]]; exact H. }
    destruct (bool_decide (name ∈ seen)) eqn:E.
    + apply bool_decide_eq_true in E.
      specialize (IH seen results Hnd Hseen).
      destruct (addNames rest seen results) as [seen' results'].
      destruct IH as (A & B & C).
      split; [exact A|]. split; [exact B|]. intros x. split.
      * intros H. apply C in H as [H|H]; simpl; auto.
      * intros [H|[<-|H]]; apply C; auto. left. now apply Hseen.
    + apply bool_decide_eq_false in E.
      assert (Hnd' : NoDup (results ++ [name])).
      { apply NoDup_app. repeat split; [exact Hnd| |apply NoDup_singleton].
        intros x Hx ->%list_elem_of_singleton. apply E, Hseen.
        now apply list_elem_of_In. }
      assert (Hseen' : forall x, x ∈ {[name]} ∪ seen <-> In x (results ++ [name])).
      { intros x. rewrite elem_of_union, elem_of_singleton, in_app_iff, Hseen.
        simpl. intuition. }
      specialize (IH _ _ Hnd' Hseen').
      destruct (addNames rest ({[name]} ∪ seen) (results ++ [name]))
        as [seen' results'].
      destruct IH as (A & B & C).
      split; [exact A|]. split; [exact B|]. intros x. split.
      * intros H. apply C in H as [H|H]; simpl; auto.
        apply in_app_iff in H as [H|[<-|[]]]; auto.
      * intros [H|[<-|H]]; apply C; auto; left; apply in_app_iff; simpl; auto.
Qed.

Lemma scanHosts_spec (lines : list string) :
  forall (seen : gset string) (results : list string),
    NoDup results -> (forall x, x ∈ seen <-> In x results) ->
    NoDup (scanHosts lines seen results)
    /\ (forall x,
           In x (scanHosts lines seen results)
           <-> In x results
               \/ exists text, In text lines /\ In x (hostNames text)).
Proof.
  induction lines as [|text rest IH]; intros seen results Hnd Hseen.
  - simpl. split; [exact Hnd|]. intros x. split; [auto|].
    intros [H|(text & [] & _)]; exact H.
  - assert (Skip : hostNames text = [] ->
                   NoDup (scanHosts rest seen results)
                   /\ (forall x,
                          In x (scanHosts rest seen results)
                          <-> In x results
                              \/ exists text0,
                                   In text0 (text :: rest)
                                   /\ In x (hostNames text0))).
    { intros E. destruct (IH seen results Hnd Hseen) as [A B].
      split; [exact A|]. intros x. rewrite B. split.
      - intros [H|(t & Ht & Hx)]; [now left|right].
        exists t. split; [now right|exact Hx].
      - intros [H|(t & [<-|Ht] & Hx)]; [now left| |right; eauto].
        rewrite E in Hx. destruct Hx. }
    cbn [scanHosts]. unfold hostNames in Skip. cbv zeta in *.
    destruct (String.eqb (TrimSpace text) "" || HasPrefix (TrimSpace text) "#")
      eqn:Hc; [now apply Skip|].
    destruct (Fields (TrimSpace text)) as [|ip [|n1 names]] eqn:Hf;
      [now apply Skip..|].
    destruct (skippedAddress ip) eqn:Hs; [now apply Skip|].
    clear Skip.
    pose proof (addNames_spec (n1 :: names) seen results Hnd Hseen) as A.
    destruct (addNames (n1 :: names) seen results) as [seen' results'].
    destruct A as (A1 & A2 & A3).
    destruct (IH seen' results' A1 A2) as [B1 B2].
    split; [exact B1|]. intros x. rewrite B2, A3.
    assert (Hn : hostNames text = upToComment (n1 :: names)).
    { unfold hostNames. now rewrite Hc, Hf, Hs. }
    split.
    + intros [[H|H]|(t & Ht & Hx)]; [now left| |].
      * right. exists text. split; [now left|]. now rewrite Hn.
      * right. exists t. split; [now right|exact Hx].
    + intros [H|(t & [<-|Ht] & Hx)]; [now left; left| |right; eauto].
      left. right. now rewrite <- Hn.
Qed.

(** X16. [GetHostSuggestions] lists each name once: the result has no
    duplicates and holds exactly the names the lines of the file
    contribute (a line that is neither blank nor a comment, whose address
    is not one of the skipped ones, up to its first field that starts a
    comment); it is empty when the file cannot be opened. *)
Theorem host_suggestions_list_each_name_once (hosts : option (list string)) :
  let rs := GetHostSuggestions hosts in
  NoDup rs
  /\ (forall name : string,
         In name rs
         <-> exists (lines : list string) (text : string),
               hosts = Some lines /\ In text lines /\ In name (hostNames text))
  /\ Forall (fun name => HasPrefix name "#" = false) rs.
Proof.
  destruct hosts as [lines|]; simpl.
  - destruct (scanHosts_spec lines ∅ [] (NoDup_nil_2 (A:=string))) as [A B].
    { intros x. rewrite elem_of_empty. simpl. tauto. }
    assert (C : forall name,
               In name (scanHosts lines ∅ [])
               <-> exists lines0 text,
                     Some lines = Some lines0 /\ In text lines0
                     /\ In name (hostNames text)).
    { intros name. rewrite B. split.
      - intros [[]|(t & Ht & Hx)]. eauto.
      - intros (l0 & t & [= <-] & Ht & Hx). eauto. }
    repeat split; [exact A|apply C|apply C|].
    apply List.Forall_forall. intros name Hn.
    apply C in Hn as (l0 & t & _ & _ & Hx).
    unfold hostNames in Hx.
    destruct (_ || _); [destruct Hx|].
    destruct (Fields _) as [|ip [|n1 names]]; try destruct Hx.
    destruct (skippedAddress ip); [destruct Hx|].
    pose proof (upToComment_no_comment (n1 :: names)) as U.
    rewrite List.Forall_forall in U. now apply U.
  - split; [constructor|]. split; [|constructor].
    intros name. split; [intros []|]. intros (l & t & [=] & _).
Qed.

(** ** The hops the table is given *)

Lemma In_insertByTTL (h x : Frontend.HopData) (l : list Frontend.HopData) :
  In x (Frontend.insertByTTL h l) <-> x = h \/ In x l.
Proof.
  induction l as [|y l IH]; simpl; [intuition|].
  destruct (Frontend.ttl h <=? Frontend.ttl y); simpl; [intuition|].
  rewrite IH. intuition.
Qed.

Lemma In_sortByTTL (x : Frontend.HopData) (l : list Frontend.HopData) :
  In x (Frontend.sortByTTL l) <-> In x l.
Proof.
  induction l as [|y l IH]; simpl; [tauto|].
  rewrite In_insertByTTL, IH. intuition.
Qed.

Lemma ascending_insertByTTL (h : Frontend.HopData) (l : list Frontend.HopData) :
  Forall (fun x => Frontend.ttl x <> Frontend.ttl h) l ->
  ascending l -> ascending (Frontend.insertByTTL h l).
Proof.
  induction l as [|y l IH]; intros Hne Hl; simpl; [auto|].
  apply Forall_cons in Hne as [Hy Hne]. destruct Hl as [Hyl Hl].
  destruct (Frontend.ttl h <=? Frontend.ttl y) eqn:E.
  - apply Z.leb_le in E. simpl. repeat split; auto.
    constructor; [lia|]. eapply List.Forall_impl; [|exact Hyl].
    simpl. intros; lia.
  - apply Z.leb_gt in E. simpl. split; [|auto].
    apply List.Forall_forall. intros x Hx.
    apply In_insertByTTL in Hx as [->|Hx]; [exact E|].
    rewrite List.Forall_forall in Hyl. auto.
Qed.

Lemma ascending_sortByTTL (l : list Frontend.HopData) :
  NoDup (List.map Frontend.ttl l) -> ascending (Frontend.sortByTTL l).
Proof.
  induction l as [|y l IH]; simpl; [auto|]. intros Hnd.
  apply NoDup_cons in Hnd as [Hy Hnd].
  apply ascending_insertByTTL; [|auto].
  apply List.Forall_forall. intros x Hx E. apply Hy.
  apply (proj1 (In_sortByTTL _ _)) in Hx. rewrite <- E.
  apply list_elem_of_In, in_map, Hx.
Qed.

Lemma sortByTTL_ascending (l : list Frontend.HopData) :
  ascending l -> Frontend.sortByTTL l = l.
Proof.
  induction l as [|y l IH]; simpl; [auto|]. intros [Hy Hl].
  rewrite IH by exact Hl.
  destruct l as [|x l]; simpl; [reflexivity|].
  apply Forall_cons in Hy as [Hx _].
  destruct (Frontend.ttl y <=? Frontend.ttl x) eqn:E; [reflexivity|].
  apply Z.leb_gt in E. lia.
Qed.

Lemma mapSet_fresh (m : Frontend.HopMap) (k : Z) (v : Frontend.HopData) :
  ~ In k (List.map fst m) -> Frontend.mapSet m k v = m ++ [(k, v)].
Proof.
  induction m as [|[k' v'] m IH]; simpl; [reflexivity|]. intros H.
  destruct (k' =? k) eqn:E.
  - apply Z.eqb_eq in E. tauto.
  - rewrite IH; [reflexivity|tauto].
Qed.

Lemma mapSet_key (m : Frontend.HopMap) (k : Z) (v : Frontend.HopData)
      (k' : Z) :
  In k' (List.map fst (Frontend.mapSet m k v)) ->
  k' = k \/ In k' (List.map fst m).
Proof.
  induction m as [|[k0 v0] m IH]; simpl.
  - intros [<-|[]]. now left.
  - destruct (k0 =? k) eqn:E; simpl.
    + apply Z.eqb_eq in E. subst k0. tauto.
    + intros [<-|H]; [tauto|]. apply IH in H. tauto.
Qed.

Lemma mapSet_NoDup (m : Frontend.HopMap) (k : Z) (v : Frontend.HopData) :
  NoDup (List.map fst m) -> NoDup (List.map fst (Frontend.mapSet m k v)).
Proof.
  induction m as [|[k0 v0] m IH]; simpl; intros Hnd.
  - apply NoDup_singleton.
  - apply NoDup_cons in Hnd as [Hk0 Hnd].
    destruct (k0 =? k) eqn:E; simpl.
    + apply Z.eqb_eq in E. subst k0. apply NoDup_cons. auto.
    + apply Z.eqb_neq in E. apply NoDup_cons. split; [|auto].
      intros H%list_elem_of_In%mapSet_key. destruct H as [H|H]; [congruence|].
      apply Hk0. now apply list_elem_of_In.
Qed.

Lemma mapSet_In (m : Frontend.HopMap) (k : Z) (v : Frontend.HopData)
      (k' : Z) (v' : Frontend.HopData) :
  NoDup (List.map fst m) ->
  In (k', v') (Frontend.mapSet m k v)
  <-> (k' = k /\ v' = v) \/ (k' <> k /\ In (k', v') m).
Proof.
  induction m as [|[k0 v0] m IH]; simpl; intros Hnd.
  - split; [intros [[= <- <-]|[]]; auto|].
    intros [[-> ->]|[_ []]]. now left.
  - apply NoDup_cons in Hnd as [Hk0 Hnd].
    destruct (k0 =? k) eqn:E.
    + apply Z.eqb_eq in E. subst k0. simpl. split.
      * intros [[= <- <-]|H]; [now left|right].
        split; [|now right]. intros ->. apply Hk0.
        apply list_elem_of_In. change k with (fst (k, v')). now apply in_map.
      * intros [[-> ->]|[Hne [[= -> _]|H]]]; [now left|congruence|now right].
    + apply Z.eqb_neq in E. simpl. rewrite (IH Hnd). split.
      * intros [[= <- <-]|[H|H]]; [right|now left|right]; intuition.
      * intros [H|[Hne [H|H]]]; [right; now left|now left|right; right; auto].
Qed.

Lemma snoc_split {A : Type} (l pre post : list A) (e v : A) :
  l ++ [e] = pre ++ v :: post ->
  (post = [] /\ v = e /\ pre = l)
  \/ exists post', post = post' ++ [e] /\ l = pre ++ v :: post'.
Proof.
  intros H. induction post as [|e' post' _] using rev_ind.
  - left. apply app_inj_tail in H as [-> ->]. auto.
  - right. exists post'.
    change (pre ++ v :: post' ++ [e']) with (pre ++ (v :: post') ++ [e']) in H.
    rewrite app_assoc in H. apply app_inj_tail in H as [-> ->]. auto.
Qed.

Lemma onHop_fold (events : list Frontend.HopData) :
  let m := fold_left Frontend.onHop events [] in
  NoDup (List.map fst m)
  /\ (forall k v, In (k, v) m <-> Frontend.ttl v = k /\ lastOfItsTTL events v).
Proof.
  induction events as [|e events IH] using rev_ind; simpl.
  - split; [constructor|]. intros k v. split; [intros []|].
    intros [_ (pre & post & H & _)]. now destruct pre.
  - rewrite fold_left_app. simpl. cbv zeta in IH. destruct IH as [Hnd Hin].
    set (m := fold_left Frontend.onHop events []) in *.
    unfold Frontend.onHop. split.
    + now apply mapSet_NoDup.
    + intros k v. rewrite (mapSet_In m _ _ _ _ Hnd), Hin. split.
      * intros [[-> ->]|[Hne [Hk (pre & post & -> & Hp)]]].
        { split; [reflexivity|]. exists events, []. auto. }
        split; [exact Hk|]. exists pre, (post ++ [e]).
        rewrite <- app_assoc. split; [reflexivity|].
        apply Forall_app. split; [exact Hp|]. constructor; [|constructor].
        congruence.
      * intros [Hk (pre & post & H & Hp)].
        apply snoc_split in H as [(-> & -> & ->)|(post' & -> & ->)].
        { left. auto. }
        right. apply Forall_app in Hp as [Hp He].
        apply Forall_cons in He as [He _].
        split; [congruence|]. split; [exact Hk|]. exists pre, post'. auto.
Qed.

Lemma onHop_fold_ascending (events : list Frontend.HopData) :
  forall m : Frontend.HopMap,
    NoDup (List.map fst m ++ List.map Frontend.ttl events) ->
    fold_left Frontend.onHop events m
    = m ++ List.map (fun h => (Frontend.ttl h, h)) events.
Proof.
  induction events as [|e events IH]; intros m Hnd; simpl.
  - now rewrite app_nil_r.
  - unfold Frontend.onHop at 2. rewrite mapSet_fresh.
    + rewrite IH.
      * now rewrite <- app_assoc.
      * rewrite List.map_app. simpl. rewrite <- app_assoc. exact Hnd.
    + intros H. apply NoDup_app in Hnd as (_ & Hd & _).
      apply (Hd (Frontend.ttl e)); [now apply list_elem_of_In|]. simpl.
      apply list_elem_of_here.
Qed.

Lemma ascending_NoDup (l : list Frontend.HopData) :
  ascending l -> NoDup (List.map Frontend.ttl l).
Proof.
  induction l as [|h l IH]; simpl; [constructor|]. intros [Hh Hl].
  apply NoDup_cons. split; [|auto].
  intros (x & E & Hx)%list_elem_of_In%in_map_iff.
  rewrite List.Forall_forall in Hh. specialize (Hh x Hx). lia.
Qed.

(** X17. In whatever order hop events arrive, the table is given the hops
    by strictly ascending TTL, one per TTL: the last event received for
    it.  Events that arrive by ascending TTL are shown as they came. *)
Theorem table_shows_last_hop_of_each_TTL (events : list Frontend.HopData) :
  let shown := Frontend.hops (fold_left Frontend.onHop events []) in
  ascending shown
  /\ (forall h, In h shown <-> lastOfItsTTL events h)
  /\ (ascending events -> shown = events).
Proof.
  destruct (onHop_fold events) as [Hnd Hin]. cbv zeta.
  set (m := fold_left Frontend.onHop events []) in *.
  assert (Hv : forall v, In v (List.map snd m) <-> lastOfItsTTL events v).
  { intros v. rewrite in_map_iff. split.
    - intros ([k v'] & <- & H). now apply Hin in H.
    - intros H. exists (Frontend.ttl v, v). split; [reflexivity|].
      apply Hin. auto. }
  assert (Hk : List.map Frontend.ttl (List.map snd m) = List.map fst m).
  { rewrite List.map_map. apply List.map_ext_in. intros [k v] H.
    apply Hin in H as [H _]. exact H. }
  unfold Frontend.hops. repeat split.
  - apply ascending_sortByTTL. now rewrite Hk.
  - intros H. now apply Hv, In_sortByTTL.
  - intros H. now apply In_sortByTTL, Hv.
  - intros Ha. subst m.
    rewrite (onHop_fold_ascending events []) by now apply ascending_NoDup.
    simpl. rewrite List.map_map. simpl. rewrite List.map_id.
    now apply sortByTTL_ascending.
Qed.




(** ** Outcomes of the sequential strategy *)

Lemma scanLoop_outcome (w : World) (ctx : Context) (destIP : string)
      (g : Package) (lines : list string) :
  cancelledAt ctx = None ->
  forall (t : nat) (lastTTL : Z) (sent : list Hop) (last : Z)
         (exit : loopExit) (t' : nat),
    value (scanLoop w ctx destIP lines t lastTTL) g = (sent, last, exit, t') ->
    last = fold_left (fun top h => if top <? TTL h then TTL h else top)
                     sent lastTTL
    /\ (exit = ReachedDest /\ Exists (fun h => IsFinal h = true) sent
        \/ exit = EndOfOutput /\ Forall (fun h => IsFinal h = false) sent).
Proof.
  intros Hc.
  induction lines as [|line rest IH]; intros t lastTTL sent last exit t' H;
    simpl in H.
  - injection H as <- <- <- <-. split; [reflexivity|]. right. auto.
  - rewrite (ctxErr_never ctx t Hc) in H.
    destruct (_ || _ || _); [exact (IH _ _ _ _ _ _ H)|].
    rewrite value_bind in H
      by (destruct (String.eqb (GOOS w) "windows"); auto with readonly).
    destruct (value (if String.eqb (GOOS w) "windows"
                     then parseWindowsLine line destIP
                     else parseUnixLine line destIP) g) as [hop ok].
    destruct ok; simpl in H; [|exact (IH _ _ _ _ _ _ H)].
    destruct (IsFinal hop) eqn:F.
    { injection H as <- <- <- <-. split; [reflexivity|]. left.
      split; [reflexivity|]. now constructor. }
    rewrite value_bind in H by auto with readonly.
    destruct (value (scanLoop w ctx destIP rest (S t) _) g)
      as [[[sent' last'] exit'] t''] eqn:St.
    injection H as <- <- <- <-.
    destruct (IH _ _ _ _ _ _ St) as [IH1 IH2]. split; [exact IH1|].
    destruct IH2 as [[-> X]|[-> A]]; [left|right]; split; auto.
Qed.

(** X19. Once the process is started and with the context never
    cancelled, the sequential strategy returns [ErrMaxHopsReached] exactly
    when no hop sent is final and the highest TTL sent (0 when none is
    above it) is not below [MaxHops]; otherwise it returns nil. *)
Theorem sequential_outcome
        (w : World) (ctx : Context) (dest : string) (opts : Options)
        (g : Package) (binary : string) (args lines : list string) :
  let r := value (runSequential w ctx dest opts) g in
  sequentialCommand w dest opts = inr (binary, args) ->
  Start w binary args = inr lines ->
  cancelledAt ctx = None ->
  (outcome r = Returns (Some ErrMaxHopsReached)
   <-> Forall (fun h => IsFinal h = false) (emitted r)
       /\ MaxHops opts <= highestTTL (emitted r))
  /\ (outcome r = Returns None
      <-> Exists (fun h => IsFinal h = true) (emitted r)
          \/ highestTTL (emitted r) < MaxHops opts).
Proof.
  intros r Hcmd Hs Hc. unfold r, runSequential. rewrite Hcmd, Hs.
  rewrite value_bind by auto with readonly.
  destruct (value (scanLoop w ctx (resolveIP w 0 dest) lines 0 0) g)
    as [[[sent last] exit] t] eqn:St.
  apply (scanLoop_outcome w ctx _ g lines Hc) in St as [-> [[-> X]|[-> A]]].
  - fold (highestTTL sent). simpl. split; split; try discriminate; auto.
    intros [A _]. exfalso.
    apply List.Exists_exists in X as (h & Hin & Hf).
    apply List.Forall_forall with (x := h) in A; [congruence|exact Hin].
  - fold (highestTTL sent).
    destruct (MaxHops opts <=? highestTTL sent) eqn:E; simpl.
    + apply Z.leb_le in E. split; split; try discriminate; auto.
      intros [X|L]; [exfalso|lia].
      apply List.Exists_exists in X as (h & Hin & Hf).
      apply List.Forall_forall with (x := h) in A; [congruence|exact Hin].
    + apply Z.leb_gt in E. split; split; try discriminate; auto.
      intros [_ L]. lia.
Qed.

Lemma sequential_outcome_witness :
  let r := value (runSequential noOutputWindows Sample.never "example.com"
                                (mkOptions 0 3000)) initPackage in
  (outcome r = Returns (Some ErrMaxHopsReached)
   <-> Forall (fun h => IsFinal h = false) (emitted r)
       /\ 0 <= highestTTL (emitted r))
  /\ (outcome r = Returns None
      <-> Exists (fun h => IsFinal h = true) (emitted r)
          \/ highestTTL (emitted r) < 0).
Proof.
  apply (sequential_outcome noOutputWindows Sample.never "example.com"
           (mkOptions 0 3000) initPackage "tracert"
           ["-h"; "0"; "-w"; "3000"; "example.com"] []).
  - reflexivity.
  - reflexivity.
  - reflexivity.
Defined.

Example sequential_no_hops_asked :
  outcome (value (runSequential noOutputWindows Sample.never "example.com"
                                (mkOptions 0 3000)) initPackage)
  = Returns (Some ErrMaxHopsReached).
Proof. reflexivity. Qed.
